(** * A peer-to-peer node exchanging JSON messages over TCP (main.go)

    Shallow embedding of [main.go]: the [Message] wire type, the [Node]
    with its two registry maps, [connectToPeer], [sendMessage], the
    receive loop of [handleConnection], one tick of [sendHeartbeats],
    the command loop of [startCLI], and [Start] and [main] around them.

    - Go strings are byte sequences: they are modelled by [string] (a
      list of 8-bit [ascii]).  Go's [int] is modelled by [Z] together
      with the range predicate [is_int].
    - The calls into [encoding/json], [unicode/utf8], [strconv],
      [strings] and [bufio] made by [main.go] are modelled in the
      modules [Utf8], [Strconv], [Unicode], [Strings], [Bufio] and
      [Json], following the behaviour of the Go standard library (for
      [encoding/json], on the [Message] struct).
    - The node and its environment form a [State]: the [Node], the open
      connections with the bytes written to each, the addresses a dial
      reaches, and the [trace] of observable effects in program order.
      Every operation is a function on [State].
    - What the program leaves open is an argument or a field of the
      environment: whether a dial succeeds ([listening]), whether a
      write fails ([broken]), the bytes a peer sends ([inbound]), the
      order in which a map is ranged over, the standard input, the text
      of a dial error, whether the port can be listened on, and the
      schedule of the goroutines of a process ([Step]).
    - Each operation is one atomic step, as the registry lock makes the
      two map writes of [connectToPeer]; a run ([run]) interleaves the
      steps of the goroutines.  Locking itself is not modelled. *)

From Stdlib Require Import ZArith Ascii String Lia Bool.
From stdpp Require Import gmap strings list fin_maps.

Local Open Scope Z_scope.
#[local] Arguments String.append !_ _.

(** ** Bytes *)

(** The numeric value of a byte, and the byte of a number ([byte(x)] in
    Go keeps the low eight bits). *)
Definition byte (c : ascii) : Z := Z.of_N (N_of_ascii c).
Definition chr (z : Z) : ascii := ascii_of_N (Z.to_N (z mod 256)).

Definition dquote : ascii := "034"%char.
Definition backslash : ascii := "092"%char.
Definition newline : ascii := "010"%char.

Fixpoint str_drop (n : nat) (s : string) : string :=
  match n, s with
  | O, _ => s
  | S n', String _ r => str_drop n' r
  | S _, EmptyString => EmptyString
  end.

Fixpoint str_take (n : nat) (s : string) : string :=
  match n, s with
  | O, _ => EmptyString
  | S n', String c r => String c (str_take n' r)
  | S _, EmptyString => EmptyString
  end.

(** [s[i]] for an index known to be in range (0 otherwise). *)
Definition at_ (s : string) (i : nat) : Z :=
  match String.get i s with
  | Some c => byte c
  | None => 0
  end.

(** Go's [int] on the 64-bit targets. *)
Definition is_int (z : Z) : Prop := - 2 ^ 63 <= z < 2 ^ 63.
Definition is_intb (z : Z) : bool := (- 2 ^ 63 <=? z) && (z <? 2 ^ 63).

(** ** unicode/utf8 *)
Module Utf8.

Definition RuneError : Z := 0xFFFD.
Definition RuneSelf : Z := 0x80.
Definition MaxRune : Z := 0x10FFFF.
Definition UTFMax : nat := 4.

(** The [first] table joined with [acceptRanges]: for a leading byte,
    the length of the sequence and the range allowed for the second
    byte. *)
Inductive first_info :=
| FAscii
| FInvalid
| FLead (size : nat) (lo hi : Z).

Definition first (s0 : Z) : first_info :=
  if s0 <? 0x80 then FAscii
  else if s0 <? 0xC2 then FInvalid
  else if s0 <? 0xE0 then FLead 2 0x80 0xBF
  else if s0 =? 0xE0 then FLead 3 0xA0 0xBF
  else if s0 <? 0xED then FLead 3 0x80 0xBF
  else if s0 =? 0xED then FLead 3 0x80 0x9F
  else if s0 <? 0xF0 then FLead 3 0x80 0xBF
  else if s0 =? 0xF0 then FLead 4 0x90 0xBF
  else if s0 <? 0xF4 then FLead 4 0x80 0xBF
  else if s0 =? 0xF4 then FLead 4 0x80 0x8F
  else FInvalid.

Definition locb : Z := 0x80.
Definition hicb : Z := 0xBF.
Definition maskx : Z := 0x3F.
Definition mask2 : Z := 0x1F.
Definition mask3 : Z := 0x0F.
Definition mask4 : Z := 0x07.
Definition tx : Z := 0x80.
Definition t2 : Z := 0xC0.
Definition t3 : Z := 0xE0.
Definition t4 : Z := 0xF0.

(** [utf8.DecodeRuneInString]: the rune at the start of [s] and its
    width; [(RuneError, 1)] for an invalid or incomplete sequence. *)
Definition DecodeRuneInString (s : string) : Z * nat :=
  match s with
  | EmptyString => (RuneError, 0%nat)
  | String c0 _ =>
    let s0 := byte c0 in
    match first s0 with
    | FAscii => (s0, 1%nat)
    | FInvalid => (RuneError, 1%nat)
    | FLead sz lo hi =>
      if (String.length s <? sz)%nat then (RuneError, 1%nat) else
      let s1 := at_ s 1 in
      if (s1 <? lo) || (hi <? s1) then (RuneError, 1%nat) else
      if (sz <=? 2)%nat then
        (Z.lor (Z.shiftl (Z.land s0 mask2) 6) (Z.land s1 maskx), 2%nat)
      else
      let s2 := at_ s 2 in
      if (s2 <? locb) || (hicb <? s2) then (RuneError, 1%nat) else
      if (sz <=? 3)%nat then
        (Z.lor (Z.lor (Z.shiftl (Z.land s0 mask3) 12)
                      (Z.shiftl (Z.land s1 maskx) 6))
               (Z.land s2 maskx), 3%nat)
      else
      let s3 := at_ s 3 in
      if (s3 <? locb) || (hicb <? s3) then (RuneError, 1%nat) else
      (Z.lor (Z.lor (Z.lor (Z.shiftl (Z.land s0 mask4) 18)
                           (Z.shiftl (Z.land s1 maskx) 12))
                    (Z.shiftl (Z.land s2 maskx) 6))
             (Z.land s3 maskx), 4%nat)
    end
  end.

(** [utf8.AppendRune] on an empty buffer; [i] is [uint32(r)]. *)
Definition EncodeRune (r : Z) : string :=
  let i := r mod 2 ^ 32 in
  if i <=? 0x7F then String (chr r) EmptyString
  else if i <=? 0x7FF then
    String (chr (Z.lor t2 (Z.shiftr r 6)))
      (String (chr (Z.lor tx (Z.land r maskx))) EmptyString)
  else
    let bad := (MaxRune <? i) || ((0xD800 <=? i) && (i <=? 0xDFFF)) in
    let r := if bad then RuneError else r in
    if bad || (i <=? 0xFFFF) then
      String (chr (Z.lor t3 (Z.shiftr r 12)))
        (String (chr (Z.lor tx (Z.land (Z.shiftr r 6) maskx)))
          (String (chr (Z.lor tx (Z.land r maskx))) EmptyString))
    else
      String (chr (Z.lor t4 (Z.shiftr r 18)))
        (String (chr (Z.lor tx (Z.land (Z.shiftr r 12) maskx)))
          (String (chr (Z.lor tx (Z.land (Z.shiftr r 6) maskx)))
            (String (chr (Z.lor tx (Z.land r maskx))) EmptyString))).

(** [utf8.ValidString]. *)
Fixpoint valid_loop (fuel : nat) (s : string) : bool :=
  match fuel with
  | O => true
  | S fuel' =>
    match s with
    | EmptyString => true
    | String _ _ =>
      let '(r, size) := DecodeRuneInString s in
      if (r =? RuneError) && (size =? 1)%nat then false
      else valid_loop fuel' (str_drop size s)
    end
  end.

Definition ValidString (s : string) : bool :=
  valid_loop (String.length s) s.

(** [utf8.RuneStart]. *)
Definition RuneStart (b : Z) : bool := negb (Z.land b 0xC0 =? 0x80).

(** The loop of [utf8.DecodeLastRuneInString] that walks back to the
    start of the last rune, entered with [start] already decremented. *)
Fixpoint last_rune_start (fuel : nat) (s : string) (lim start : Z) : Z :=
  match fuel with
  | O => start
  | S fuel' =>
    if start <? lim then start
    else if RuneStart (at_ s (Z.to_nat start)) then start
    else last_rune_start fuel' s lim (start - 1)
  end.

(** [utf8.DecodeLastRuneInString]. *)
Definition DecodeLastRuneInString (s : string) : Z * nat :=
  let end_ := Z.of_nat (String.length s) in
  if end_ =? 0 then (RuneError, 0%nat)
  else
    let r := at_ s (Z.to_nat (end_ - 1)) in
    if r <? RuneSelf then (r, 1%nat)
    else
      let lim := Z.max 0 (end_ - Z.of_nat UTFMax) in
      let start := Z.max 0 (last_rune_start UTFMax s lim (end_ - 2)) in
      let '(r, size) := DecodeRuneInString (str_drop (Z.to_nat start) s) in
      if negb (start + Z.of_nat size =? end_) then (RuneError, 1%nat)
      else (r, size).

End Utf8.

(** ** strconv *)
Module Strconv.

Definition digit (d : Z) : ascii := chr (48 + d).

Definition is_digit (c : ascii) : bool :=
  (48 <=? byte c) && (byte c <=? 57).

(** Decimal digits of a non-negative number, most significant first,
    in front of [acc]. *)
Fixpoint format_bits (fuel : nat) (u : Z) (acc : string) : string :=
  match fuel with
  | O => acc
  | S fuel' =>
    let acc' := String (digit (u mod 10)) acc in
    if u <? 10 then acc' else format_bits fuel' (u / 10) acc'
  end.

Definition utoa (u : Z) : string :=
  format_bits (S (Z.to_nat (Z.log2 u))) u EmptyString.

(** [strconv.Itoa] / the [%d] verb. *)
Definition Itoa (i : Z) : string :=
  if i <? 0 then String "-"%char (utoa (- i)) else utoa i.

(** The digit loop of [strconv.ParseUint] in base 10; [None] on a
    byte that is not a digit. *)
Fixpoint parse_digits (acc : Z) (s : string) : option Z :=
  match s with
  | EmptyString => Some acc
  | String c r =>
    if is_digit c then parse_digits (acc * 10 + (byte c - 48)) r
    else None
  end.

(** [strconv.ParseInt(s, 10, 64)]: [None] stands for a syntax or a
    range error. *)
Definition ParseInt (s : string) : option Z :=
  match s with
  | EmptyString => None
  | String c r =>
    let '(neg, ds) :=
      if Ascii.eqb c "-"%char then (true, r)
      else if Ascii.eqb c "+"%char then (false, r)
      else (false, s) in
    match ds with
    | EmptyString => None
    | _ =>
      match parse_digits 0 ds with
      | None => None
      | Some u =>
        let v := if neg then - u else u in
        if is_intb v then Some v else None
      end
    end
  end.

Inductive NumError := ErrSyntax | ErrRange.

(** The digit loop of [strconv.ParseUint(s, 10, 64)]: the value read so
    far is [n]; an overflow is reported where it happens, before the
    bytes behind it are looked at. *)
Fixpoint ParseUint_loop (n : Z) (s : string) : Z * option NumError :=
  match s with
  | EmptyString => (n, None)
  | String c r =>
    if is_digit c then
      if (2 ^ 64 - 1) / 10 + 1 <=? n then (2 ^ 64 - 1, Some ErrRange)
      else
        let n1 := n * 10 + (byte c - 48) in
        if 2 ^ 64 - 1 <? n1 then (2 ^ 64 - 1, Some ErrRange)
        else ParseUint_loop n1 r
    else (0, Some ErrSyntax)
  end.

(** [strconv.ParseInt(s, 10, 0)], the slow path of [Atoi]: the value it
    returns beside the error. *)
Definition ParseInt0 (s : string) : Z * option NumError :=
  match s with
  | EmptyString => (0, Some ErrSyntax)
  | String c r =>
    let '(neg, ds) :=
      if Ascii.eqb c "+"%char then (false, r)
      else if Ascii.eqb c "-"%char then (true, r)
      else (false, s) in
    match ds with
    | EmptyString => (0, Some ErrSyntax)
    | String _ _ =>
      match ParseUint_loop 0 ds with
      | (_, Some ErrSyntax) => (0, Some ErrSyntax)
      | (un, _) =>
        if negb neg && (2 ^ 63 <=? un) then (2 ^ 63 - 1, Some ErrRange)
        else if neg && (2 ^ 63 <? un) then (- 2 ^ 63, Some ErrRange)
        else (if neg then - un else un, None)
      end
    end
  end.

(** [strconv.Atoi], with its fast path for the strings of fewer than 19
    bytes.  The program drops the error and goes on with the value: 0
    after a syntax error, the nearest [int] after a range error. *)
Definition Atoi (s : string) : Z * option NumError :=
  let sLen := String.length s in
  if (0 <? sLen)%nat && (sLen <? 19)%nat then
    match s with
    | EmptyString => (0, Some ErrSyntax)
    | String c r =>
      let sign := Ascii.eqb c "-"%char || Ascii.eqb c "+"%char in
      let ds := if sign then r else s in
      if sign && (String.length ds <? 1)%nat then (0, Some ErrSyntax)
      else
        match parse_digits 0 ds with
        | None => (0, Some ErrSyntax)
        | Some n => (if Ascii.eqb c "-"%char then - n else n, None)
        end
    end
  else ParseInt0 s.

(** [strconv.ParseBool]: the value, and whether the string was one of
    the accepted ones (the program drops the error). *)
Definition ParseBool (s : string) : bool * bool :=
  if String.eqb s "1" || String.eqb s "t" || String.eqb s "T"
     || String.eqb s "TRUE" || String.eqb s "true" || String.eqb s "True"
  then (true, true)
  else if String.eqb s "0" || String.eqb s "f" || String.eqb s "F"
          || String.eqb s "FALSE" || String.eqb s "false" || String.eqb s "False"
  then (false, true)
  else (false, false).

End Strconv.

(** ** unicode *)
Module Unicode.

(** [unicode.IsSpace]: the Latin-1 cases, then the [White_Space] table. *)
Definition IsSpace (r : Z) : bool :=
  if r mod 2 ^ 32 <=? 0xFF then
    (r =? 0x09) || (r =? 0x0A) || (r =? 0x0B) || (r =? 0x0C) || (r =? 0x0D)
    || (r =? 0x20) || (r =? 0x85) || (r =? 0xA0)
  else
    (r =? 0x1680) || ((0x2000 <=? r) && (r <=? 0x200A)) || (r =? 0x2028)
    || (r =? 0x2029) || (r =? 0x202F) || (r =? 0x205F) || (r =? 0x3000).

End Unicode.

(** ** strings *)
Module Strings.

(** The [asciiSpace] table of package [strings]. *)
Definition asciiSpace (b : Z) : bool :=
  (b =? 0x09) || (b =? 0x0A) || (b =? 0x0B) || (b =? 0x0C) || (b =? 0x0D)
  || (b =? 0x20).

(** [strings.TrimLeftFunc(s, unicode.IsSpace)]: [s] from its first
    rune that is no space on. *)
Fixpoint TrimLeftFunc_loop (fuel : nat) (s : string) : string :=
  match fuel with
  | O => EmptyString
  | S fuel' =>
    match s with
    | EmptyString => EmptyString
    | String _ _ =>
      let '(r, size) := Utf8.DecodeRuneInString s in
      if Unicode.IsSpace r then TrimLeftFunc_loop fuel' (str_drop size s) else s
    end
  end.

Definition TrimLeftFunc (s : string) : string :=
  TrimLeftFunc_loop (String.length s) s.

(** [lastIndexFunc(s, unicode.IsSpace, false)] from index [i] down:
    the index of the last rune that is no space, or [-1]. *)
Fixpoint lastIndexFunc_loop (fuel : nat) (s : string) (i : nat) : Z :=
  match fuel with
  | O => -1
  | S fuel' =>
    match i with
    | O => -1
    | S _ =>
      let '(r, size) := Utf8.DecodeLastRuneInString (str_take i s) in
      let i' := (i - size)%nat in
      if negb (Unicode.IsSpace r) then Z.of_nat i' else lastIndexFunc_loop fuel' s i'
    end
  end.

(** [strings.TrimRightFunc(s, unicode.IsSpace)]. *)
Definition TrimRightFunc (s : string) : string :=
  let i := lastIndexFunc_loop (String.length s) s (String.length s) in
  if (0 <=? i) && (Utf8.RuneSelf <=? at_ s (Z.to_nat i)) then
    let wid := snd (Utf8.DecodeRuneInString (str_drop (Z.to_nat i) s)) in
    str_take (Z.to_nat i + wid) s
  else str_take (Z.to_nat (i + 1)) s.

(** The second loop of [strings.TrimSpace], over [s[start:]], from
    [stop] down. *)
Fixpoint TrimSpace_stop (s : string) (stop : nat) : string :=
  match stop with
  | O => EmptyString
  | S stop' =>
    let c := at_ s stop' in
    if Utf8.RuneSelf <=? c then TrimRightFunc (str_take stop s)
    else if negb (asciiSpace c) then str_take stop s
    else TrimSpace_stop s stop'
  end.

(** [strings.TrimSpace]: the first loop, over the leading bytes. *)
Fixpoint TrimSpace (s : string) : string :=
  match s with
  | EmptyString => EmptyString
  | String c r =>
    if Utf8.RuneSelf <=? byte c then TrimRightFunc (TrimLeftFunc s)
    else if negb (asciiSpace (byte c)) then TrimSpace_stop s (String.length s)
    else TrimSpace r
  end.

Definition space : ascii := " "%char.

(** [strings.Split(s, " ")]. *)
Fixpoint Split (s : string) : list string :=
  match s with
  | EmptyString => [EmptyString]
  | String c r =>
    if Ascii.eqb c space then EmptyString :: Split r
    else
      match Split r with
      | w :: ws => String c w :: ws
      | [] => [String c EmptyString]
      end
  end.

(** [strings.Join(parts, " ")]. *)
Fixpoint Join (parts : list string) : string :=
  match parts with
  | [] => EmptyString
  | [w] => w
  | w :: ws => w +:+ String space (Join ws)
  end.

End Strings.

(** ** bufio *)
Module Bufio.

(** [reader.ReadString('\n')]: the bytes up to and with the first
    newline, or all that is left, and the input behind them. *)
Fixpoint ReadString (s : string) : string * string :=
  match s with
  | EmptyString => (EmptyString, EmptyString)
  | String c r =>
    if Ascii.eqb c newline then (String c EmptyString, r)
    else let '(l, rest) := ReadString r in (String c l, rest)
  end.

End Bufio.

(** ** The wire message (main.go, lines 16-20) *)

Record Message := mkMessage {
  Type_ : string;     (* `json:"type"` *)
  Content : string;   (* `json:"content"` *)
  From : Z;           (* `json:"from"` *)
}.

(** Go's zero value of the struct ([var msg Message]). *)
Definition zero_Message : Message := mkMessage "" "" 0.

(** ** encoding/json on [Message] *)
Module Json.

Import Utf8.

(** *** Encoding *)

Definition hex (d : Z) : ascii :=
  if d <? 10 then chr (48 + d) else chr (97 + (d - 10)).

(** [htmlSafeSet]: the ASCII bytes written as they are. *)
Definition htmlSafe (b : Z) : bool :=
  (0x20 <=? b) && (b <? 0x80)
  && negb (b =? 0x22) && negb (b =? 0x26) && negb (b =? 0x3C)
  && negb (b =? 0x3E) && negb (b =? 0x5C).

(** The escape written for an ASCII byte outside [htmlSafeSet]. *)
Definition escape (b : Z) : string :=
  if (b =? 0x5C) || (b =? 0x22) then String backslash (String (chr b) "")
  else if b =? 0x08 then String backslash "b"
  else if b =? 0x0C then String backslash "f"
  else if b =? 0x0A then String backslash "n"
  else if b =? 0x0D then String backslash "r"
  else if b =? 0x09 then String backslash "t"
  else String backslash
         ("u00" +:+ String (hex (Z.shiftr b 4))
                      (String (hex (Z.land b 0xF)) "")).

(** The loop of [appendString] with [escapeHTML] set, from index [i]
    on; [src] is what is left of the source at [i]. *)
Fixpoint appendString_loop (fuel : nat) (src : string) : string :=
  match fuel with
  | O => ""
  | S fuel' =>
    match src with
    | EmptyString => ""
    | String c r =>
      let b := byte c in
      if b <? RuneSelf then
        if htmlSafe b then String c (appendString_loop fuel' r)
        else escape b +:+ appendString_loop fuel' r
      else
        let '(rn, size) := DecodeRuneInString (str_take UTFMax src) in
        if (rn =? RuneError) && (size =? 1)%nat then
          String backslash "ufffd" +:+ appendString_loop fuel' r
        else if (rn =? 0x2028) || (rn =? 0x2029) then
          String backslash
            ("u202" +:+ String (hex (Z.land rn 0xF)) "")
          +:+ appendString_loop fuel' (str_drop size src)
        else
          str_take size src +:+ appendString_loop fuel' (str_drop size src)
    end
  end.

(** The text between the quotes of the JSON string for [src]. *)
Definition quote_body (src : string) : string :=
  appendString_loop (String.length src) src.

Definition appendString (src : string) : string :=
  String dquote (quote_body src +:+ String dquote "").

Definition key (name : string) : string :=
  String dquote (name +:+ String dquote ":").

(** [json.NewEncoder(w).Encode(msg)]: the bytes handed to [w.Write];
    [Encode] ends every value with a newline. *)
Definition encode (m : Message) : string :=
  "{" +:+ key "type" +:+ appendString (Type_ m)
  +:+ "," +:+ key "content" +:+ appendString (Content m)
  +:+ "," +:+ key "from" +:+ Strconv.Itoa (From m)
  +:+ "}" +:+ String newline "".

(** *** Decoding: the scanner *)

#[warnings="-register-all"] Inductive json :=
| JNull
| JBool (b : bool)
| JNum (lit : string)
| JStr (s : string)
| JArr (elems : list json)
| JObj (members : list (string * json)).

Definition isSpace (c : ascii) : bool :=
  let b := byte c in (b =? 0x20) || (b =? 0x09) || (b =? 0x0D) || (b =? 0x0A).

Fixpoint skip_ws (s : string) : string :=
  match s with
  | String c r => if isSpace c then skip_ws r else s
  | EmptyString => EmptyString
  end.

Definition is_hex (c : ascii) : bool :=
  let b := byte c in
  ((0x30 <=? b) && (b <=? 0x39)) || ((0x61 <=? b) && (b <=? 0x66))
  || ((0x41 <=? b) && (b <=? 0x46)).

(** The scanner states inside a string literal. *)
Inductive sstate :=
| InString | InStringEsc
| InStringEscU | InStringEscU1 | InStringEscU12 | InStringEscU123.

Definition consS (c : ascii) (o : option (string * string))
  : option (string * string) :=
  match o with
  | Some (lit, rest) => Some (String c lit, rest)
  | None => None
  end.

(** Scans a string literal from behind its opening quote: the text
    between the quotes and what follows the closing quote. *)
Fixpoint scan_string (st : sstate) (s : string)
  : option (string * string) :=
  match s with
  | EmptyString => None
  | String c r =>
    let b := byte c in
    match st with
    | InString =>
      if b =? 0x22 then Some (EmptyString, r)
      else if b =? 0x5C then consS c (scan_string InStringEsc r)
      else if b <? 0x20 then None
      else consS c (scan_string InString r)
    | InStringEsc =>
      if (b =? 0x62) || (b =? 0x66) || (b =? 0x6E) || (b =? 0x72)
         || (b =? 0x74) || (b =? 0x5C) || (b =? 0x2F) || (b =? 0x22)
      then consS c (scan_string InString r)
      else if b =? 0x75 then consS c (scan_string InStringEscU r)
      else None
    | InStringEscU =>
      if is_hex c then consS c (scan_string InStringEscU1 r) else None
    | InStringEscU1 =>
      if is_hex c then consS c (scan_string InStringEscU12 r) else None
    | InStringEscU12 =>
      if is_hex c then consS c (scan_string InStringEscU123 r) else None
    | InStringEscU123 =>
      if is_hex c then consS c (scan_string InString r) else None
    end
  end.

(** The scanner states inside a number. *)
Inductive nstate := NNeg | N0 | N1 | NDot | NDot0 | NE | NESign | NE0.

Definition num_accepting (st : nstate) : bool :=
  match st with
  | N0 | N1 | NDot0 | NE0 => true
  | _ => false
  end.

Definition num_next (st : nstate) (c : ascii) : option nstate :=
  let b := byte c in
  let dig := (0x30 <=? b) && (b <=? 0x39) in
  let isE := (b =? 0x65) || (b =? 0x45) in
  match st with
  | NNeg => if b =? 0x30 then Some N0
            else if (0x31 <=? b) && (b <=? 0x39) then Some N1 else None
  | N1 => if dig then Some N1
          else if b =? 0x2E then Some NDot
          else if isE then Some NE else None
  | N0 => if b =? 0x2E then Some NDot
          else if isE then Some NE else None
  | NDot => if dig then Some NDot0 else None
  | NDot0 => if dig then Some NDot0
             else if isE then Some NE else None
  | NE => if (b =? 0x2B) || (b =? 0x2D) then Some NESign
          else if dig then Some NE0 else None
  | NESign => if dig then Some NE0 else None
  | NE0 => if dig then Some NE0 else None
  end.

(** Scans the rest of a number literal. *)
Fixpoint scan_number (st : nstate) (s : string)
  : option (string * string) :=
  match s with
  | EmptyString => if num_accepting st then Some (EmptyString, EmptyString) else None
  | String c r =>
    match num_next st c with
    | Some st' => consS c (scan_number st' r)
    | None => if num_accepting st then Some (EmptyString, s) else None
    end
  end.

(** *** Decoding: string literals *)

(** [getu4]: the rune of a [\uXXXX] escape at the start of [s], or
    [-1]. *)
Definition hexval (c : ascii) : option Z :=
  let b := byte c in
  if (0x30 <=? b) && (b <=? 0x39) then Some (b - 0x30)
  else if (0x61 <=? b) && (b <=? 0x66) then Some (b - 0x61 + 10)
  else if (0x41 <=? b) && (b <=? 0x46) then Some (b - 0x41 + 10)
  else None.

Fixpoint getu4_digits (n : nat) (r : Z) (s : string) : Z :=
  match n with
  | O => r
  | S n' =>
    match s with
    | EmptyString => -1
    | String c s' =>
      match hexval c with
      | Some d => getu4_digits n' (r * 16 + d) s'
      | None => -1
      end
    end
  end.

Definition getu4 (s : string) : Z :=
  match s with
  | String c0 (String c1 s') =>
    if (String.length s <? 6)%nat || negb (byte c0 =? 0x5C)
       || negb (byte c1 =? 0x75)
    then -1
    else getu4_digits 4 0 s'
  | _ => -1
  end.

(** [utf16.IsSurrogate] and [utf16.DecodeRune]. *)
Definition IsSurrogate (r : Z) : bool := (0xD800 <=? r) && (r <? 0xE000).

Definition utf16_DecodeRune (r1 r2 : Z) : Z :=
  if (0xD800 <=? r1) && (r1 <? 0xDC00) && (0xDC00 <=? r2) && (r2 <? 0xE000)
  then Z.lor (Z.shiftl (r1 - 0xD800) 10) (r2 - 0xDC00) + 0x10000
  else RuneError.

Definition prepend (p : string) (o : option string) : option string :=
  match o with
  | Some t => Some (p +:+ t)
  | None => None
  end.

(** The loop of [unquoteBytes] over the text between the quotes.  (The
    prefix that Go copies unchanged, up to the first escape or invalid
    byte, goes through the same loop here.) *)
Fixpoint unquote_loop (fuel : nat) (s : string) : option string :=
  match s with
  | EmptyString => Some EmptyString
  | String c r =>
    match fuel with
    | O => None
    | S fuel' =>
      let b := byte c in
      if b =? 0x5C then
        match r with
        | EmptyString => None
        | String e r' =>
          let eb := byte e in
          if (eb =? 0x22) || (eb =? 0x5C) || (eb =? 0x2F) || (eb =? 0x27)
          then prepend (String e "") (unquote_loop fuel' r')
          else if eb =? 0x62 then prepend (String (chr 0x08) "") (unquote_loop fuel' r')
          else if eb =? 0x66 then prepend (String (chr 0x0C) "") (unquote_loop fuel' r')
          else if eb =? 0x6E then prepend (String (chr 0x0A) "") (unquote_loop fuel' r')
          else if eb =? 0x72 then prepend (String (chr 0x0D) "") (unquote_loop fuel' r')
          else if eb =? 0x74 then prepend (String (chr 0x09) "") (unquote_loop fuel' r')
          else if eb =? 0x75 then
            let rr := getu4 s in
            if rr <? 0 then None
            else
              let s6 := str_drop 6 s in
              if IsSurrogate rr then
                let rr1 := getu4 s6 in
                let dec := utf16_DecodeRune rr rr1 in
                if negb (dec =? RuneError) then
                  prepend (EncodeRune dec) (unquote_loop fuel' (str_drop 6 s6))
                else
                  prepend (EncodeRune RuneError) (unquote_loop fuel' s6)
              else prepend (EncodeRune rr) (unquote_loop fuel' s6)
          else None
        end
      else if (b =? 0x22) || (b <? 0x20) then None
      else if b <? RuneSelf then
        prepend (String c "") (unquote_loop fuel' r)
      else
        let '(rr, size) := DecodeRuneInString s in
        prepend (EncodeRune rr) (unquote_loop fuel' (str_drop size s))
    end
  end.

Definition unquote (body : string) : option string :=
  unquote_loop (String.length body) body.

(** A whole string literal, from behind its opening quote. *)
Definition parse_string (s : string) : option (string * string) :=
  match scan_string InString s with
  | Some (body, rest) =>
    match unquote body with
    | Some t => Some (t, rest)
    | None => None
    end
  | None => None
  end.

(** *** Decoding: values *)

Definition maxNestingDepth : Z := 10000.

Definition expect (lit : string) (s : string) : option string :=
  if String.prefix lit s then Some (str_drop (String.length lit) s) else None.

(** One JSON value at the start of [s] (after white space) and the
    input behind it; [None] for a syntax error or an input that ends
    inside the value. *)
Fixpoint parse_value (fuel : nat) (depth : Z) (s : string)
  : option (json * string) :=
  match fuel with
  | O => None
  | S fuel' =>
    match skip_ws s with
    | EmptyString => None
    | String c r =>
      let b := byte c in
      if b =? 0x7B then                       (* { *)
        if maxNestingDepth <? depth + 1 then None else
        match skip_ws r with
        | EmptyString => None
        | String c' r' =>
          if byte c' =? 0x7D then Some (JObj [], r')
          else
            match parse_members fuel' (depth + 1) r with
            | Some (ms, rest) => Some (JObj ms, rest)
            | None => None
            end
        end
      else if b =? 0x5B then                  (* [ *)
        if maxNestingDepth <? depth + 1 then None else
        match skip_ws r with
        | EmptyString => None
        | String c' r' =>
          if byte c' =? 0x5D then Some (JArr [], r')
          else
            match parse_elems fuel' (depth + 1) r with
            | Some (vs, rest) => Some (JArr vs, rest)
            | None => None
            end
        end
      else if b =? 0x22 then
        match parse_string r with
        | Some (t, rest) => Some (JStr t, rest)
        | None => None
        end
      else if b =? 0x2D then
        match scan_number NNeg r with
        | Some (lit, rest) => Some (JNum (String c lit), rest)
        | None => None
        end
      else if b =? 0x30 then
        match scan_number N0 r with
        | Some (lit, rest) => Some (JNum (String c lit), rest)
        | None => None
        end
      else if (0x31 <=? b) && (b <=? 0x39) then
        match scan_number N1 r with
        | Some (lit, rest) => Some (JNum (String c lit), rest)
        | None => None
        end
      else if b =? 0x74 then
        match expect "rue" r with
        | Some rest => Some (JBool true, rest)
        | None => None
        end
      else if b =? 0x66 then
        match expect "alse" r with
        | Some rest => Some (JBool false, rest)
        | None => None
        end
      else if b =? 0x6E then
        match expect "ull" r with
        | Some rest => Some (JNull, rest)
        | None => None
        end
      else None
    end
  end

(** The members of an object from a key on, up to the closing brace. *)
with parse_members (fuel : nat) (depth : Z) (s : string)
  : option (list (string * json) * string) :=
  match fuel with
  | O => None
  | S fuel' =>
    match skip_ws s with
    | EmptyString => None
    | String c r =>
      if negb (byte c =? 0x22) then None else
      match parse_string r with
      | None => None
      | Some (k, r1) =>
        match skip_ws r1 with
        | EmptyString => None
        | String c1 r2 =>
          if negb (byte c1 =? 0x3A) then None else
          match parse_value fuel' depth r2 with
          | None => None
          | Some (v, r3) =>
            match skip_ws r3 with
            | EmptyString => None
            | String c3 r4 =>
              if byte c3 =? 0x2C then
                match parse_members fuel' depth r4 with
                | Some (ms, rest) => Some ((k, v) :: ms, rest)
                | None => None
                end
              else if byte c3 =? 0x7D then Some ([(k, v)], r4)
              else None
            end
          end
        end
      end
    end
  end

(** The elements of an array from a value on, up to the closing
    bracket. *)
with parse_elems (fuel : nat) (depth : Z) (s : string)
  : option (list json * string) :=
  match fuel with
  | O => None
  | S fuel' =>
    match parse_value fuel' depth s with
    | None => None
    | Some (v, r1) =>
      match skip_ws r1 with
      | EmptyString => None
      | String c r2 =>
        if byte c =? 0x2C then
          match parse_elems fuel' depth r2 with
          | Some (vs, rest) => Some (v :: vs, rest)
          | None => None
          end
        else if byte c =? 0x5D then Some ([v], r2)
        else None
      end
    end
  end.

(** *** Decoding: storing into the struct *)

Inductive DecodeError :=
| ErrEOF              (* io.EOF: nothing but white space is left *)
| ErrMalformed        (* *json.SyntaxError or io.ErrUnexpectedEOF *)
| ErrUnmarshalType.   (* *json.UnmarshalTypeError *)

Definition upper (c : ascii) : ascii :=
  let b := byte c in
  if (0x61 <=? b) && (b <=? 0x7A) then chr (b - 0x20) else c.

Fixpoint foldName (s : string) : string :=
  match s with
  | EmptyString => EmptyString
  | String c r => String (upper c) (foldName r)
  end.

Inductive field := FType | FContent | FFrom.

(** The struct field a key names: the exact name, else the name up to
    the case of ASCII letters.  (No name of [Message] has a letter
    with a non-ASCII case variant.) *)
Definition lookup_field (k : string) : option field :=
  let f := foldName k in
  if String.eqb f "TYPE" then Some FType
  else if String.eqb f "CONTENT" then Some FContent
  else if String.eqb f "FROM" then Some FFrom
  else None.

(** Stores one member; the boolean is set when the value does not fit
    the field ([d.saveError]); [null] leaves the field as it is. *)
Definition store (acc : Message * bool) (kv : string * json)
  : Message * bool :=
  let '(m, bad) := acc in
  let '(k, v) := kv in
  match lookup_field k with
  | None => acc
  | Some FType =>
    match v with
    | JStr t => (mkMessage t (Content m) (From m), bad)
    | JNull => acc
    | _ => (m, true)
    end
  | Some FContent =>
    match v with
    | JStr t => (mkMessage (Type_ m) t (From m), bad)
    | JNull => acc
    | _ => (m, true)
    end
  | Some FFrom =>
    match v with
    | JNum lit =>
      match Strconv.ParseInt lit with
      | Some n => (mkMessage (Type_ m) (Content m) n, bad)
      | None => (m, true)
      end
    | JNull => acc
    | _ => (m, true)
    end
  end.

(** [d.unmarshal] into a zero [Message]. *)
Definition unmarshal (v : json) : DecodeError + Message :=
  match v with
  | JNull => inr zero_Message
  | JObj ms =>
    let '(m, bad) := fold_left store ms (zero_Message, false) in
    if bad then inl ErrUnmarshalType else inr m
  | _ => inl ErrUnmarshalType
  end.

(** [dec.Decode(&msg)] with [var msg Message] fresh, on a decoder
    whose unread input is [s]: the message and the input left, or the
    error. *)
Definition decode (s : string) : DecodeError + (Message * string) :=
  match skip_ws s with
  | EmptyString => inl ErrEOF
  | String _ _ =>
    match parse_value (S (String.length s)) 0 s with
    | None => inl ErrMalformed
    | Some (v, rest) =>
      match unmarshal v with
      | inl e => inl e
      | inr m => inr (m, rest)
      end
    end
  end.

End Json.

(** ** The node and its environment *)

(** A [net.Conn] handle. *)
Definition Conn := nat.

(** What the environment holds for an open connection: the bytes the
    remote end sends on it during its lifetime, the bytes written to it
    so far, and the error its [Write] fails with, if it is broken. *)
Record ConnState := mkConnState {
  inbound : string;
  outbound : string;
  broken : option string;
}.

(** The observable effects, in program order. *)
Inductive Event :=
| Stdout (text : string)                        (* fmt.Printf *)
| LogLine (text : string)                       (* log.Printf, less its time stamp *)
| Sleep (d : Z)                                 (* time.Sleep, in ns *)
| ConnWrite (c : Conn) (bytes : string) (err : option string).

Definition Second : Z := 1000000000.

(** main.go, lines 22-28 (the mutex guards [Peers] and [conn]; every
    operation below is one critical section or reads under the lock). *)
Record Node := mkNode {
  ID : Z;
  IsMaster : bool;
  Peers : gmap Z string;
  conn : gmap Z Conn;
}.

(** The error value [connectToPeer] hands back. *)
Inductive error :=
| DialError (address : string).

Record State := mkState {
  node : Node;
  conns : gmap Conn ConnState;     (* the open connections *)
  listening : gset string;         (* the addresses a dial reaches *)
  trace : list Event;
}.

(** main.go, lines 30-38. *)
Definition NewNode (id : Z) (isMaster : bool) : Node :=
  mkNode id isMaster ∅ ∅.

Definition init (id : Z) (isMaster : bool) (addrs : gset string) : State :=
  mkState (NewNode id isMaster) ∅ addrs [].

Definition emit (e : Event) (st : State) : State :=
  mkState (node st) (conns st) (listening st) (trace st ++ [e]).

Definition set_node (n : Node) (st : State) : State :=
  mkState n (conns st) (listening st) (trace st).

(** *** The peer registry *)

(** The two map writes of [connectToPeer] (lines 106-109), made under
    one [Lock]. *)
Definition register (id : Z) (address : string) (c : Conn) (n : Node) : Node :=
  mkNode (ID n) (IsMaster n) (<[id := address]> (Peers n)) (<[id := c]> (conn n)).

(** The map read of [sendMessage] (lines 115-117): [Some c] stands for
    [(c, true)], [None] for [(nil, false)]. *)
Definition lookup_conn (id : Z) (n : Node) : option Conn := conn n !! id.

(** *** The transport *)

(** A handle no open connection uses. *)
Definition fresh_conn (cs : gmap Conn ConnState) : Conn := fresh (dom cs).

(** [net.Dial("tcp", address)].  No receive loop is started for a
    dialled connection, so what the remote end sends on it is never
    read: its [inbound] is left empty. *)
Definition Dial (address : string) (st : State) : (error + Conn) * State :=
  if decide (address ∈ listening st) then
    let c := fresh_conn (conns st) in
    (inr c, mkState (node st) (<[c := mkConnState "" "" None]> (conns st))
                    (listening st) (trace st))
  else (inl (DialError address), st).

(** [listener.Accept()] (line 53): a new connection, on which the remote
    end sends [input]. *)
Definition Accept (input : string) (st : State) : Conn * State :=
  let c := fresh_conn (conns st) in
  (c, mkState (node st) (<[c := mkConnState input "" None]> (conns st))
              (listening st) (trace st)).

(** [conn.Write(bytes)]: all of [bytes], or nothing and an error. *)
Definition Write (c : Conn) (bytes : string) (st : State) : option string * State :=
  match conns st !! c with
  | Some cs =>
    match broken cs with
    | None =>
      (None,
       mkState (node st)
               (<[c := mkConnState (inbound cs) (outbound cs +:+ bytes) None]> (conns st))
               (listening st) (trace st ++ [ConnWrite c bytes None]))
    | Some e => (Some e, emit (ConnWrite c bytes (Some e)) st)
    end
  | None =>
    let e := "use of closed network connection" in
    (Some e, emit (ConnWrite c bytes (Some e)) st)
  end.

(** *** The operations of the node *)

(** main.go, lines 100-112. *)
Definition connectToPeer (id : Z) (address : string) (st : State)
  : option error * State :=
  match Dial address st with
  | (inl err, st') => (Some err, st')
  | (inr c, st') => (None, set_node (register id address c (node st')) st')
  end.

(** main.go, lines 114-128. *)
Definition sendMessage (targetID : Z) (msg : Message) (st : State) : State :=
  match lookup_conn targetID (node st) with
  | None =>
    emit (LogLine ("No connection to node " +:+ Strconv.Itoa targetID)) st
  | Some c =>
    match Write c (Json.encode msg) st with
    | (None, st') => st'
    | (Some err, st') =>
      emit (LogLine ("Failed to send message to node "
                     +:+ Strconv.Itoa targetID +:+ ": " +:+ err)) st'
    end
  end.

(** The body of the receive loop for one decoded message (main.go,
    lines 80-96). *)
Definition dispatch (msg : Message) (st : State) : State :=
  let n := node st in
  if String.eqb (Type_ msg) "heartbeat" then
    if negb (IsMaster n) then
      emit (Stdout ("Heartbeat received from master (Node "
                    +:+ Strconv.Itoa (From msg) +:+ ")" +:+ String newline "")) st
    else st
  else if String.eqb (Type_ msg) "task" then
    let st1 :=
      emit (Stdout ("Task received from Node " +:+ Strconv.Itoa (From msg)
                    +:+ ": " +:+ Content msg +:+ String newline "")) st in
    let st2 := emit (Sleep Second) st1 in
    sendMessage (From msg)
      (mkMessage "result" ("Processed: " +:+ Content msg) (ID n)) st2
  else if String.eqb (Type_ msg) "result" then
    emit (Stdout ("Result received from Node " +:+ Strconv.Itoa (From msg)
                  +:+ ": " +:+ Content msg +:+ String newline "")) st
  else st.

(** The receive loop (main.go, lines 73-97) on a decoder whose unread
    input is [input]. *)
Fixpoint handle_loop (fuel : nat) (input : string) (st : State) : State :=
  match fuel with
  | O => st
  | S fuel' =>
    match Json.decode input with
    | inl _ => st
    | inr (msg, rest) => handle_loop fuel' rest (dispatch msg st)
    end
  end.

Definition handle_input (input : string) (st : State) : State :=
  handle_loop (S (String.length input)) input st.

Definition inbound_of (st : State) (c : Conn) : string :=
  match conns st !! c with
  | Some cs => inbound cs
  | None => ""
  end.

(** main.go, lines 72-98. *)
Definition handleConnection (c : Conn) (st : State) : State :=
  handle_input (inbound_of st c) st.

(** [order] is an order in which [for id := range m] may visit the keys
    of [m]: every key once. *)
Definition range_order {V} (m : gmap Z V) (order : list Z) : Prop :=
  NoDup order ∧ ∀ id, id ∈ order ↔ is_Some (m !! id).

(** One tick of [sendHeartbeats] (main.go, lines 133-140), the map
    being visited in [order]. *)
Definition sendHeartbeats_tick (order : list Z) (st : State) : State :=
  fold_left
    (fun st id => sendMessage id (mkMessage "heartbeat" "" (ID (node st))) st)
    order st.

(** *** Runs of the node *)

(** The steps that the goroutines of a node take: a [connect] or [send]
    command (lines 153-177), one message handled by a receive loop, a
    connection accepted and its whole receive loop (lines 52-60), and a
    tick of the heartbeat task, which [Start] spawns on a master only
    (lines 63-66). *)
Inductive Op :=
| OpConnect (id : Z) (address : string)
| OpSend (targetID : Z) (msg : Message)
| OpDispatch (msg : Message)
| OpAccept (input : string)
| OpTick (order : list Z).

Definition exec (op : Op) (st : State) : State :=
  match op with
  | OpConnect id address => snd (connectToPeer id address st)
  | OpSend targetID msg => sendMessage targetID msg st
  | OpDispatch msg => dispatch msg st
  | OpAccept input => let '(c, st') := Accept input st in handleConnection c st'
  | OpTick order =>
    if IsMaster (node st) then sendHeartbeats_tick order st else st
  end.

Definition run (ops : list Op) (st : State) : State :=
  fold_left (fun st op => exec op st) ops st.

(** The connection writes among some events: the handle, the bytes. *)
Fixpoint writes (evs : list Event) : list (Conn * string) :=
  match evs with
  | [] => []
  | ConnWrite c bytes _ :: evs' => (c, bytes) :: writes evs'
  | _ :: evs' => writes evs'
  end.

(** Successive calls of [Decode] on [input] yield [msgs] and leave
    [rest] unread. *)
Inductive decodes : string → list Message → string → Prop :=
| decodes_nil s : decodes s [] s
| decodes_cons s m r ms r' :
    Json.decode s = inr (m, r) → decodes r ms r' → decodes s (m :: ms) r'.

(** ** The command line, and the process around it *)

(** [fmt.Println] of one string. *)
Definition Println (s : string) (st : State) : State :=
  emit (Stdout (s +:+ String newline "")) st.

(** The [list] command's loop (lines 182-184), the map being visited in
    [order]. *)
Definition print_peers (order : list Z) (st : State) : State :=
  fold_left
    (fun st id =>
       match Peers (node st) !! id with
       | Some addr =>
         emit (Stdout ("Node " +:+ Strconv.Itoa id +:+ ": " +:+ addr
                       +:+ String newline "")) st
       | None => st
       end)
    order st.

(** The [switch] of [startCLI] (main.go, lines 150-200) on the trimmed
    line [cmd]: whether the function returns, and the state.  [Error] is
    the text of a dial error, [order] the order in which a [list]
    visits the peers. *)
Definition command (Error : error → string) (order : list Z)
    (cmd : string) (st : State) : bool * State :=
  match Strings.Split cmd with
  | [] => (true, st)     (* parts[0] out of range: never, [Split] yields a word *)
  | p0 :: args =>
    if String.eqb p0 "connect" then
      match args with
      | [w; address] =>
        let id := (Strconv.Atoi w).1 in
        match connectToPeer id address st with
        | (Some err, st') =>
          (false, emit (Stdout ("Failed to connect: " +:+ Error err
                                +:+ String newline "")) st')
        | (None, st') =>
          (false, emit (Stdout ("Connected to Node " +:+ Strconv.Itoa id
                                +:+ String newline "")) st')
        end
      | _ => (false, Println "Usage: connect <node_id> <address>" st)
      end
    else if String.eqb p0 "send" then
      match args with
      | w :: ((_ :: _) as words) =>
        let targetID := (Strconv.Atoi w).1 in
        let content := Strings.Join words in
        (false, sendMessage targetID (mkMessage "task" content (ID (node st))) st)
      | _ => (false, Println "Usage: send <node_id> <message>" st)
      end
    else if String.eqb p0 "list" then
      (false, print_peers order (Println "Connected peers:" st))
    else if String.eqb p0 "exit" then (true, st)
    else if String.eqb p0 "help" then
      (false,
       Println "  exit                        - Exit the program"
         (Println "  help                        - Show this help"
           (Println "  list                        - List connected peers"
             (Println "  send <node_id> <message>    - Send a message to a node"
               (Println "  connect <node_id> <address> - Connect to another node"
                 (Println "Available commands:" st))))))
    else
      (false, Println "Unknown command. Type 'help' for available commands" st)
  end.

(** The prompt (line 147). *)
Definition prompt (n : Node) : Event :=
  Stdout ("Node " +:+ Strconv.Itoa (ID n) +:+ " > ").

(** One pass of the loop of [startCLI] (lines 147-200) on the unread
    standard input: whether the function returns, the input left, and
    the state. *)
Definition iteration (Error : error → string) (order : list Z)
    (stdin : string) (st : State) : bool * string * State :=
  let st1 := emit (prompt (node st)) st in
  let '(line, rest) := Bufio.ReadString stdin in
  let '(returned, st2) := command Error order (Strings.TrimSpace line) st1 in
  (returned, rest, st2).

(** main.go, lines 144-202: as many passes as [orders] has entries, the
    k-th [list] order being used by the k-th pass; the first component
    tells whether the function has returned by then. *)
Fixpoint startCLI (Error : error → string) (orders : list (list Z))
    (stdin : string) (st : State) : bool * string * State :=
  match orders with
  | [] => (false, stdin, st)
  | order :: orders' =>
    let '(returned, rest, st') := iteration Error order stdin st in
    if returned then (true, rest, st')
    else startCLI Error orders' rest st'
  end.

(** What the goroutines of a started node do, one step at a time: the
    main goroutine makes a pass of the loop of [startCLI]; the accept
    loop (lines 51-61) takes a connection, whose receive loop runs, or
    fails and logs; the heartbeat task, if there is one, ticks. *)
Inductive Step :=
| Command (order : list Z)
| Accepted (input : string)
| AcceptFailed (err : string)
| Tick (order : list Z).

(** How a process ends, or where it is. *)
Inductive Outcome :=
| Exit (code : Z) (out : list Event)
| Running (stdin : string) (st : State).

(** The body of [Start] from line 50 on, under a schedule: it returns,
    and with it [main], when [startCLI] does. *)
Fixpoint serve (Error : error → string) (steps : list Step)
    (stdin : string) (st : State) : Outcome :=
  match steps with
  | [] => Running stdin st
  | Command order :: steps' =>
    let '(returned, rest, st') := iteration Error order stdin st in
    if returned then Exit 0 (trace st') else serve Error steps' rest st'
  | Accepted input :: steps' =>
    serve Error steps' stdin (exec (OpAccept input) st)
  | AcceptFailed err :: steps' =>
    serve Error steps' stdin
      (emit (LogLine ("Failed to accept connection: " +:+ err)) st)
  | Tick order :: steps' =>
    serve Error steps' stdin (exec (OpTick order) st)
  end.

(** The [%v] verb on a [bool]. *)
Definition FormatBool (b : bool) : string := if b then "true" else "false".

(** main.go, lines 40-70.  [Listen] gives the error of [net.Listen] on
    an address, if it fails. *)
Definition Start (Error : error → string) (Listen : string → option string)
    (port : Z) (steps : list Step) (stdin : string) (st : State) : Outcome :=
  let n := node st in
  match Listen (":" +:+ Strconv.Itoa port) with
  | Some err =>
    Exit 1 (trace st ++ [LogLine ("Failed to start node " +:+ Strconv.Itoa (ID n)
                                  +:+ ": " +:+ err)])
  | None =>
    serve Error steps stdin
      (emit (Stdout ("Node " +:+ Strconv.Itoa (ID n) +:+ " started on port "
                     +:+ Strconv.Itoa port +:+ " (Master: "
                     +:+ FormatBool (IsMaster n) +:+ ")" +:+ String newline "")) st)
  end.

(** main.go, lines 204-216, on [os.Args], in an environment where the
    addresses of [addrs] can be dialled. *)
Definition main (Error : error → string) (Listen : string → option string)
    (addrs : gset string) (Args : list string) (steps : list Step)
    (stdin : string) : Outcome :=
  match Args with
  | [_; a1; a2; a3] =>
    let nodeID := (Strconv.Atoi a1).1 in
    let port := (Strconv.Atoi a2).1 in
    let isMaster := (Strconv.ParseBool a3).1 in
    Start Error Listen port steps stdin (init nodeID isMaster addrs)
  | _ => Exit 1 [Stdout ("Usage: go run main.go <node_id> <port> <is_master>"
                         +:+ String newline "")]
  end.

(** The events of a process so far. *)
Definition events (o : Outcome) : list Event :=
  match o with
  | Exit _ out => out
  | Running _ st => trace st
  end.

(** ** Notions used to state the properties *)

(** A sequence of registrations, oldest first. *)
Definition registers (regs : list (Z * string * Conn)) (n : Node) : Node :=
  fold_left (fun n r => register r.1.1 r.1.2 r.2 n) regs n.

(** What the [list] command ranges over (main.go, line 182). *)
Definition list_peers (n : Node) : list (Z * string) := map_to_list (Peers n).

(** The states a node reaches from its creation. *)
Definition reachable (st : State) : Prop :=
  ∃ i master addrs ops, st = run ops (init i master addrs).

(** The reply [handleConnection] builds for a task (lines 89-93). *)
Definition task_reply (n : Node) (m : Message) : Message :=
  mkMessage "result" ("Processed: " +:+ Content m) (ID n).

(** What it prints for a task (line 86). *)
Definition task_banner (m : Message) : Event :=
  Stdout ("Task received from Node " +:+ Strconv.Itoa (From m)
          +:+ ": " +:+ Content m +:+ String newline "").

(** The events [st'] has after those of [st]. *)
Definition new_events (st st' : State) : list Event :=
  drop (length (trace st)) (trace st').

(** Every task is answered: handling [m] in [st] writes the reply to
    some connection, once. *)
Definition answers_task (st : State) (m : Message) : Prop :=
  ∃ c, writes (new_events st (dispatch m st))
       = [(c, Json.encode (task_reply (node st) m))].

(** The message [Decode] yields on [input], if any. *)
Definition decoded (input : string) : option Message :=
  match Json.decode input with
  | inr (m, _) => Some m
  | inl _ => None
  end.

(** Strings of decimal digits. *)
Fixpoint all_digits (s : string) : bool :=
  match s with
  | EmptyString => true
  | String c r => Strconv.is_digit c && all_digits r
  end.

(** Strings of bytes from 0x80 up. *)
Fixpoint all_high (p : string) : bool :=
  match p with
  | EmptyString => true
  | String c r => (0x80 <=? byte c) && all_high r
  end.

(** [p] is the UTF-8 encoding, of two to four bytes, of the rune [r]. *)
Definition encodes (p : string) (r : Z) : Prop :=
  all_high p = true
  ∧ (2 <= String.length p <= 4)%nat
  ∧ Utf8.EncodeRune r = p
  ∧ ∀ t, Utf8.DecodeRuneInString (p +:+ t) = (r, String.length p).

(** A scanner result with [p] put in front of the literal. *)
Definition prependS (p : string) (o : option (string * string))
  : option (string * string) :=
  match o with
  | Some (lit, rest) => Some (p +:+ lit, rest)
  | None => None
  end.

(** The messages [encode] and [decode] carry unchanged. *)
Definition valid_Message (m : Message) : Prop :=
  Utf8.ValidString (Type_ m) = true
  ∧ Utf8.ValidString (Content m) = true
  ∧ is_int (From m).

(** What a peer's sends put on a connection, one after the other. *)
Fixpoint encode_all (ms : list Message) : string :=
  match ms with
  | [] => ""
  | m :: ms' => Json.encode m +:+ encode_all ms'
  end.

(** No identifier has [c] as its registered connection. *)
Definition unregistered (c : Conn) (n : Node) : Prop :=
  ∀ id, conn n !! id ≠ Some c.

(** Every registered connection is open. *)
Definition registered_open (st : State) : Prop :=
  ∀ id c, conn (node st) !! id = Some c → is_Some (conns st !! c).

(** *** The command line *)

(** Strings without a space. *)
Fixpoint no_space (s : string) : bool :=
  match s with
  | EmptyString => true
  | String c r => negb (Ascii.eqb c Strings.space) && no_space r
  end.

(** Strings without a newline. *)
Fixpoint no_newline (s : string) : bool :=
  match s with
  | EmptyString => true
  | String c r => negb (Ascii.eqb c newline) && no_newline r
  end.

(** The lines of an input, each with its newline, the last one maybe
    without. *)
Fixpoint lines (s : string) : list string :=
  match s with
  | EmptyString => []
  | String c r =>
    if Ascii.eqb c newline then String c EmptyString :: lines r
    else
      match lines r with
      | l :: ls => String c l :: ls
      | [] => [String c EmptyString]
      end
  end.

(** Strings of blanks, tabs, carriage returns and the like. *)
Fixpoint all_space (s : string) : bool :=
  match s with
  | EmptyString => true
  | String c r => Strings.asciiSpace (byte c) && all_space r
  end.

(** A byte below 0x80 that is no white space. *)
Definition plain (c : ascii) : bool :=
  (byte c <? Utf8.RuneSelf) && negb (Strings.asciiSpace (byte c)).

(** The last byte is plain. *)
Fixpoint last_plain (s : string) : bool :=
  match s with
  | EmptyString => false
  | String c EmptyString => plain c
  | String _ r => last_plain r
  end.

(** Nothing to trim: empty, or plain bytes at both ends. *)
Definition trimmed (s : string) : bool :=
  match s with
  | EmptyString => true
  | String c _ => plain c && last_plain s
  end.

(** The strings [Atoi] takes for a number, among those of fewer than 19
    bytes: an optional sign and at least one digit. *)
Definition is_decimal (s : string) : bool :=
  match s with
  | EmptyString => false
  | String c r =>
    if Ascii.eqb c "-"%char || Ascii.eqb c "+"%char then
      negb (String.eqb r "") && all_digits r
    else all_digits s
  end.

(** The first word of a line, as [startCLI] sees it. *)
Definition first_word (line : string) : string :=
  hd "" (Strings.Split (Strings.TrimSpace line)).

(** The answer to an unknown command (line 199). *)
Definition unknown_command : Event :=
  Stdout ("Unknown command. Type 'help' for available commands" +:+ String newline "").

(** The line the [list] command prints for a peer (line 183). *)
Definition peer_line (p : Z * string) : Event :=
  Stdout ("Node " +:+ Strconv.Itoa p.1 +:+ ": " +:+ p.2 +:+ String newline "").

(** The peers a [list] visits, in the order of the visit. *)
Definition listed (n : Node) (order : list Z) : list (Z * string) :=
  omap (fun id => (fun addr => (id, addr)) <$> Peers n !! id) order.

(** [st'] differs from [st] by events that are no writes. *)
Definition quiet (st st' : State) : Prop :=
  listening st' = listening st ∧ node st' = node st ∧ conns st' = conns st
  ∧ ∃ evs, trace st' = trace st ++ evs ∧ writes evs = [].

(** The messages a node sends: a task typed at its command line, the
    reply to a task it received and, if it is master, a heartbeat. *)
Definition own_message (id : Z) (master : bool) (m : Message) : Prop :=
  From m = id
  ∧ (Type_ m = "task"
     ∨ (Type_ m = "result" ∧ ∃ c, Content m = "Processed: " +:+ c)
     ∨ (Type_ m = "heartbeat" ∧ Content m = "" ∧ master = true)).

(** Every connection write among [evs] carries the encoding of one such
    message, and nothing else. *)
Definition sends_own (id : Z) (master : bool) (evs : list Event) : Prop :=
  Forall (fun w => ∃ m, w.2 = Json.encode m ∧ own_message id master m) (writes evs).

(** [st'] comes after [st]: the same identity, and more events, whose
    writes are messages of the node. *)
Definition follows (st st' : State) : Prop :=
  ID (node st') = ID (node st)
  ∧ IsMaster (node st') = IsMaster (node st)
  ∧ ∃ evs, trace st' = trace st ++ evs
           ∧ sends_own (ID (node st)) (IsMaster (node st)) evs.


(** * Lemmas *)

Import Json.
Import Utf8.

(** ** Tactics *)

(** Decides the comparisons of the goal that [lia] settles. *)
Ltac zb_one :=
  match goal with
  | |- context [?a =? ?b] =>
    first [ replace (a =? b) with true by (symmetry; apply Z.eqb_eq; lia)
          | replace (a =? b) with false by (symmetry; apply Z.eqb_neq; lia) ]
  | |- context [?a <? ?b] =>
    first [ replace (a <? b) with true by (symmetry; apply Z.ltb_lt; lia)
          | replace (a <? b) with false by (symmetry; apply Z.ltb_ge; lia) ]
  | |- context [?a <=? ?b] =>
    first [ replace (a <=? b) with true by (symmetry; apply Z.leb_le; lia)
          | replace (a <=? b) with false by (symmetry; apply Z.leb_gt; lia) ]
  end.
Ltac zb := repeat (zb_one; cbv beta iota; simpl andb; simpl orb; simpl negb).

Ltac case_match_hyp H :=
  match type of H with
  | context [match ?x with _ => _ end] => destruct x eqn:?
  | context [if ?x then _ else _] => destruct x eqn:?
  end.

Ltac split_match H := repeat (case_match_hyp H; simpl in H; try discriminate H).

(** Keeps what [lem] says of every hypothesis it applies to. *)
Ltac learn lem :=
  repeat match goal with
  | E : _ |- _ =>
    let H := fresh in pose proof E as H; apply lem in H; revert E
  end; intros.

Ltac split_both H :=
  repeat (case_match_hyp H; simpl in H |- *; try discriminate H).

Ltac split_ifs :=
  repeat match goal with
  | |- context [if ?b then _ else _] => destruct b eqn:?
  end.

(** Bit operations on bytes as arithmetic. *)
Ltac arith :=
  unfold maskx, mask2, mask3, mask4, tx, t2, t3, t4;
  change 0x3F with (Z.ones 6); change 0x1F with (Z.ones 5);
  change 0x0F with (Z.ones 4); change 0x07 with (Z.ones 3);
  repeat rewrite Z.land_ones by lia;
  repeat rewrite Z.shiftl_mul_pow2 by lia;
  repeat rewrite Z.shiftr_div_pow2 by lia;
  change (2 ^ 3) with 8; change (2 ^ 4) with 16; change (2 ^ 5) with 32;
  change (2 ^ 6) with 64; change (2 ^ 12) with 4096;
  change (2 ^ 18) with 262144.

Ltac dm := change (2 ^ 32) with 4294967296 in *; Z.div_mod_to_equations; lia.

Ltac decode_prefix :=
  intros t; simpl String.append;
  unfold DecodeRuneInString, first, at_, locb, hicb;
  simpl String.length; simpl String.get; zb; try done.

(** ** The decoder consumes input *)

Lemma skip_ws_length s : (String.length (skip_ws s) <= String.length s)%nat.
Proof. induction s as [|c r IH]; simpl; [lia|]. destruct (isSpace c); simpl; lia. Qed.

Lemma consS_Some c o lit rest :
  consS c o = Some (lit, rest) → ∃ lit', o = Some (lit', rest) ∧ lit = String c lit'.
Proof. destruct o as [[l r]|]; simpl; [|discriminate]. intros [= <- <-]. eauto. Qed.

Lemma scan_string_length s : ∀ st body rest,
  scan_string st s = Some (body, rest) → (String.length rest < String.length s)%nat.
Proof.
  induction s as [|c r IH]; intros st body rest H; simpl in H; [discriminate|].
  destruct st; split_match H;
    try (injection H as <- <-; simpl; lia);
    apply consS_Some in H as (lit' & H & _); apply IH in H; simpl; lia.
Qed.

Lemma scan_number_length s : ∀ st lit rest,
  scan_number st s = Some (lit, rest) → (String.length rest <= String.length s)%nat.
Proof.
  induction s as [|c r IH]; intros st lit rest H; simpl in H.
  - destruct (num_accepting st); [injection H as <- <-; simpl; lia | discriminate].
  - destruct (num_next st c).
    + apply consS_Some in H as (lit' & H & _). apply IH in H. simpl; lia.
    + destruct (num_accepting st); [injection H as <- <-; simpl; lia | discriminate].
Qed.

Lemma str_drop_length n s : (String.length (str_drop n s) <= String.length s)%nat.
Proof. revert s; induction n as [|n IH]; intros [|c s]; simpl; try lia. specialize (IH s). lia. Qed.

Lemma expect_length lit s rest :
  expect lit s = Some rest → (String.length rest <= String.length s)%nat.
Proof.
  unfold expect. destruct (String.prefix lit s); [|discriminate].
  intros [= <-]. apply str_drop_length.
Qed.

Lemma parse_string_length s t rest :
  parse_string s = Some (t, rest) → (String.length rest < String.length s)%nat.
Proof.
  unfold parse_string. destruct (scan_string InString s) as [[body r]|] eqn:E; [|discriminate].
  destruct (unquote body); [|discriminate]. intros [= <- <-].
  eapply scan_string_length; eauto.
Qed.

Lemma skip_ws_cons_length s c r :
  skip_ws s = String c r → (String.length r < String.length s)%nat.
Proof. intros H. pose proof (skip_ws_length s) as L. rewrite H in L. simpl in L. lia. Qed.

(** Every value parsed takes at least one byte. *)
Lemma parse_length fuel :
  (∀ d s v rest, parse_value fuel d s = Some (v, rest) →
     (String.length rest < String.length s)%nat)
  ∧ (∀ d s ms rest, parse_members fuel d s = Some (ms, rest) →
     (String.length rest < String.length s)%nat)
  ∧ (∀ d s vs rest, parse_elems fuel d s = Some (vs, rest) →
     (String.length rest < String.length s)%nat).
Proof.
  induction fuel as [|fuel (IHv & IHm & IHe)]; [repeat split; intros; discriminate|].
  repeat split.
  - intros d s v rest H. simpl in H.
    destruct (skip_ws s) as [|c r] eqn:Es; [discriminate|].
    apply skip_ws_cons_length in Es.
    split_match H; try (injection H as <- <-);
    repeat match goal with
    | E : skip_ws _ = String _ _ |- _ => apply skip_ws_cons_length in E
    | E : parse_members _ _ _ = Some _ |- _ => apply IHm in E
    | E : parse_elems _ _ _ = Some _ |- _ => apply IHe in E
    | E : parse_string _ = Some _ |- _ => apply parse_string_length in E
    | E : scan_number _ _ = Some _ |- _ => apply scan_number_length in E
    | E : expect _ _ = Some _ |- _ => apply expect_length in E
    end; simpl in *; lia.
  - intros d s v rest H. simpl in H.
    destruct (skip_ws s) as [|c r] eqn:Es; [discriminate|].
    apply skip_ws_cons_length in Es.
    split_match H; try (injection H as <- <-);
    repeat match goal with
    | E : skip_ws _ = String _ _ |- _ => apply skip_ws_cons_length in E
    | E : parse_members _ _ _ = Some _ |- _ => apply IHm in E
    | E : parse_value _ _ _ = Some _ |- _ => apply IHv in E
    | E : parse_string _ = Some _ |- _ => apply parse_string_length in E
    end; simpl in *; lia.
  - intros d s v rest H. simpl in H.
    split_match H; try (injection H as <- <-);
    repeat match goal with
    | E : skip_ws _ = String _ _ |- _ => apply skip_ws_cons_length in E
    | E : parse_elems _ _ _ = Some _ |- _ => apply IHe in E
    | E : parse_value _ _ _ = Some _ |- _ => apply IHv in E
    end; simpl in *; lia.
Qed.

(** A successful [Decode] leaves less input than it found. *)
Lemma decode_length s m rest :
  decode s = inr (m, rest) → (String.length rest < String.length s)%nat.
Proof.
  unfold decode. destruct (skip_ws s); [discriminate|].
  destruct (parse_value _ _ _) as [[v r]|] eqn:E; [|discriminate].
  destruct (unmarshal v); [discriminate|]. intros [= <- <-].
  apply (proj1 (parse_length _)) in E. exact E.
Qed.

(** ** Bytes and strings *)

Lemma byte_range c : 0 <= byte c < 256.
Proof.
  unfold byte. pose proof (N_ascii_bounded c) as H. lia.
Qed.

Lemma chr_byte c : chr (byte c) = c.
Proof.
  unfold chr. rewrite Z.mod_small by apply byte_range.
  unfold byte. rewrite N2Z.id. apply ascii_N_embedding.
Qed.

Lemma is_intb_true i : is_int i → is_intb i = true.
Proof.
  unfold is_int, is_intb. intros H.
  apply andb_true_iff; split; [apply Z.leb_le | apply Z.ltb_lt]; lia.
Qed.

Lemma append_assoc (a b c : string) : (a +:+ b) +:+ c = a +:+ (b +:+ c).
Proof. induction a; simpl; congruence. Qed.

Lemma append_nil_r (a : string) : a +:+ "" = a.
Proof. induction a; simpl; congruence. Qed.

Lemma length_append (a b : string) :
  String.length (a +:+ b) = (String.length a + String.length b)%nat.
Proof. induction a; simpl; congruence. Qed.

Lemma byte_chr z : 0 <= z < 256 → byte (chr z) = z.
Proof.
  intros H. unfold byte, chr. rewrite Z.mod_small by lia.
  rewrite N_ascii_embedding by lia. lia.
Qed.

(** ** UTF-8: decoding a rune and encoding it again *)

Module Utf8Facts.
Import Utf8.

(** [lor] of a multiple of [2 ^ n] and a number below [2 ^ n] adds them. *)
Lemma lor_add x b n :
  0 <= n → 0 <= b < 2 ^ n → x mod 2 ^ n = 0 → Z.lor x b = x + b.
Proof.
  intros Hn Hb Hx.
  assert (Z.land x b = 0) as H0.
  { apply Z.bits_inj'. intros i Hi. rewrite Z.land_spec, Z.bits_0.
    destruct (Z.lt_ge_cases i n) as [L|G].
    - replace x with ((x / 2 ^ n) * 2 ^ n).
      + rewrite Z.mul_pow2_bits_low by lia. reflexivity.
      + pose proof (Z.div_mod x (2 ^ n) ltac:(lia)). lia.
    - rewrite <- (Z.mod_small b (2 ^ n)) by lia.
      rewrite Z.mod_pow2_bits_high by lia. apply andb_false_r. }
  pose proof (Z.add_lor_land x b). lia.
Qed.

Lemma lor_lead t n v :
  0 <= n → t mod 2 ^ n = 0 → 0 <= v < 2 ^ n → Z.lor t v = t + v.
Proof. intros. apply (lor_add t v n); done. Qed.

(** The rune of a two, three and four byte sequence, as arithmetic. *)
Lemma rune2 b0 b1 :
  0xC0 <= b0 <= 0xDF → 0x80 <= b1 <= 0xBF →
  Z.lor (Z.shiftl (Z.land b0 mask2) 6) (Z.land b1 maskx)
  = (b0 - 0xC0) * 64 + (b1 - 0x80).
Proof.
  intros H0 H1. arith.
  rewrite (lor_add _ _ 6); [| lia | change (2^6) with 64; Z.div_mod_to_equations; lia
                            | change (2^6) with 64; Z.div_mod_to_equations; lia].
  Z.div_mod_to_equations; lia.
Qed.

Lemma rune3 b0 b1 b2 :
  0xE0 <= b0 <= 0xEF → 0x80 <= b1 <= 0xBF → 0x80 <= b2 <= 0xBF →
  Z.lor (Z.lor (Z.shiftl (Z.land b0 mask3) 12) (Z.shiftl (Z.land b1 maskx) 6))
        (Z.land b2 maskx)
  = (b0 - 0xE0) * 4096 + (b1 - 0x80) * 64 + (b2 - 0x80).
Proof.
  intros H0 H1 H2. arith.
  rewrite (lor_add (_ * 4096) _ 12); [| lia | change (2^12) with 4096; Z.div_mod_to_equations; lia
                            | change (2^12) with 4096; Z.div_mod_to_equations; lia].
  rewrite (lor_add _ _ 6); [| lia | change (2^6) with 64; Z.div_mod_to_equations; lia
                            | change (2^6) with 64; Z.div_mod_to_equations; lia].
  Z.div_mod_to_equations; lia.
Qed.

Lemma rune4 b0 b1 b2 b3 :
  0xF0 <= b0 <= 0xF7 → 0x80 <= b1 <= 0xBF → 0x80 <= b2 <= 0xBF →
  0x80 <= b3 <= 0xBF →
  Z.lor (Z.lor (Z.lor (Z.shiftl (Z.land b0 mask4) 18)
                      (Z.shiftl (Z.land b1 maskx) 12))
               (Z.shiftl (Z.land b2 maskx) 6))
        (Z.land b3 maskx)
  = (b0 - 0xF0) * 262144 + (b1 - 0x80) * 4096 + (b2 - 0x80) * 64 + (b3 - 0x80).
Proof.
  intros H0 H1 H2 H3. arith.
  rewrite (lor_add (_ * 262144) _ 18); [| lia | change (2^18) with 262144; Z.div_mod_to_equations; lia
                            | change (2^18) with 262144; Z.div_mod_to_equations; lia].
  rewrite (lor_add (_ + _ * 4096) _ 12); [| lia | change (2^12) with 4096; Z.div_mod_to_equations; lia
                            | change (2^12) with 4096; Z.div_mod_to_equations; lia].
  rewrite (lor_add _ _ 6); [| lia | change (2^6) with 64; Z.div_mod_to_equations; lia
                            | change (2^6) with 64; Z.div_mod_to_equations; lia].
  Z.div_mod_to_equations; lia.
Qed.

(** [EncodeRune] gives the bytes back. *)
Lemma encode2 b0 b1 :
  0xC2 <= b0 <= 0xDF → 0x80 <= b1 <= 0xBF →
  EncodeRune ((b0 - 0xC0) * 64 + (b1 - 0x80))
  = String (chr b0) (String (chr b1) "").
Proof.
  intros H0 H1. unfold EncodeRune.
  set (r := (b0 - 0xC0) * 64 + (b1 - 0x80)).
  assert (0x80 <= r <= 0x7FF) by (unfold r; lia).
  rewrite (Z.mod_small r) by lia. cbv zeta. zb. arith.
  rewrite (lor_lead 192 5), (lor_lead 128 6) by (try done; unfold r; dm).
  repeat f_equal; unfold r; dm.
Qed.

Lemma encode3 b0 b1 b2 :
  0xE0 <= b0 <= 0xEF → 0x80 <= b1 <= 0xBF → 0x80 <= b2 <= 0xBF →
  (b0 = 0xE0 → 0xA0 <= b1) → (b0 = 0xED → b1 <= 0x9F) →
  EncodeRune ((b0 - 0xE0) * 4096 + (b1 - 0x80) * 64 + (b2 - 0x80))
  = String (chr b0) (String (chr b1) (String (chr b2) "")).
Proof.
  intros H0 H1 H2 Ha Hb. unfold EncodeRune.
  set (r := (b0 - 0xE0) * 4096 + (b1 - 0x80) * 64 + (b2 - 0x80)).
  assert (0x800 <= r <= 0xFFFF ∧ ¬ (0xD800 <= r <= 0xDFFF)) as [? ?] by (unfold r; lia).
  rewrite (Z.mod_small r) by lia. cbv zeta. unfold MaxRune.
  zb. replace ((0xD800 <=? r) && (r <=? 0xDFFF)) with false by lia.
  cbv iota. arith.
  rewrite (lor_lead 224 4), !(lor_lead 128 6) by (try done; unfold r; dm).
  repeat f_equal; unfold r; dm.
Qed.

Lemma encode4 b0 b1 b2 b3 :
  0xF0 <= b0 <= 0xF4 → 0x80 <= b1 <= 0xBF → 0x80 <= b2 <= 0xBF →
  0x80 <= b3 <= 0xBF →
  (b0 = 0xF0 → 0x90 <= b1) → (b0 = 0xF4 → b1 <= 0x8F) →
  EncodeRune ((b0 - 0xF0) * 262144 + (b1 - 0x80) * 4096 + (b2 - 0x80) * 64
              + (b3 - 0x80))
  = String (chr b0) (String (chr b1) (String (chr b2) (String (chr b3) ""))).
Proof.
  intros H0 H1 H2 H3 Ha Hb. unfold EncodeRune.
  set (r := (b0 - 0xF0) * 262144 + (b1 - 0x80) * 4096 + (b2 - 0x80) * 64
            + (b3 - 0x80)).
  assert (0x10000 <= r <= 0x10FFFF) by (unfold r; lia).
  rewrite (Z.mod_small r) by lia. cbv zeta. unfold MaxRune.
  zb. arith.
  rewrite (lor_lead 240 3), !(lor_lead 128 6) by (try done; unfold r; dm).
  repeat f_equal; unfold r; dm.
Qed.

Lemma encode1 b : 0 <= b <= 0x7F → EncodeRune b = String (chr b) "".
Proof.
  intros H. unfold EncodeRune. rewrite Z.mod_small by lia. zb. done.
Qed.

(** The well-formed sequences of two, three and four bytes. *)
Lemma encodes2 c0 c1 :
  0xC2 <= byte c0 <= 0xDF → 0x80 <= byte c1 <= 0xBF →
  encodes (String c0 (String c1 ""))
    (Z.lor (Z.shiftl (Z.land (byte c0) mask2) 6) (Z.land (byte c1) maskx)).
Proof.
  intros H0 H1. repeat split.
  - simpl. zb. done.
  - simpl; lia.
  - simpl; lia.
  - rewrite rune2, encode2, !chr_byte by lia. done.
  - decode_prefix.
Qed.

Lemma encodes3 c0 c1 c2 :
  0xE0 <= byte c0 <= 0xEF → 0x80 <= byte c1 <= 0xBF →
  0x80 <= byte c2 <= 0xBF →
  (byte c0 = 0xE0 → 0xA0 <= byte c1) → (byte c0 = 0xED → byte c1 <= 0x9F) →
  encodes (String c0 (String c1 (String c2 "")))
    (Z.lor (Z.lor (Z.shiftl (Z.land (byte c0) mask3) 12)
                  (Z.shiftl (Z.land (byte c1) maskx) 6))
           (Z.land (byte c2) maskx)).
Proof.
  intros H0 H1 H2 Ha Hb. repeat split.
  - simpl. zb. done.
  - simpl; lia.
  - simpl; lia.
  - rewrite rune3, encode3, !chr_byte by lia. done.
  - assert (byte c0 = 0xE0 ∨ 0xE1 <= byte c0 <= 0xEC ∨ byte c0 = 0xED
            ∨ 0xEE <= byte c0 <= 0xEF) as [?|[?|[?|?]]] by lia;
      decode_prefix.
Qed.

Lemma encodes4 c0 c1 c2 c3 :
  0xF0 <= byte c0 <= 0xF4 → 0x80 <= byte c1 <= 0xBF →
  0x80 <= byte c2 <= 0xBF → 0x80 <= byte c3 <= 0xBF →
  (byte c0 = 0xF0 → 0x90 <= byte c1) → (byte c0 = 0xF4 → byte c1 <= 0x8F) →
  encodes (String c0 (String c1 (String c2 (String c3 ""))))
    (Z.lor (Z.lor (Z.lor (Z.shiftl (Z.land (byte c0) mask4) 18)
                         (Z.shiftl (Z.land (byte c1) maskx) 12))
                  (Z.shiftl (Z.land (byte c2) maskx) 6))
           (Z.land (byte c3) maskx)).
Proof.
  intros H0 H1 H2 H3 Ha Hb. repeat split.
  - simpl. zb. done.
  - simpl; lia.
  - simpl; lia.
  - rewrite rune4, encode4, !chr_byte by lia. done.
  - assert (byte c0 = 0xF0 ∨ 0xF1 <= byte c0 <= 0xF3 ∨ byte c0 = 0xF4)
      as [?|[?|?]] by lia; decode_prefix.
Qed.

(** A decoded rune that starts with a byte from 0x80 up is either the
    error, of width one, or a well-formed sequence at the start of the
    string. *)
Lemma decode_multibyte c0 s1 r k :
  0x80 <= byte c0 →
  DecodeRuneInString (String c0 s1) = (r, k) →
  (r = RuneError ∧ k = 1%nat)
  ∨ ∃ p t, String c0 s1 = p +:+ t ∧ String.length p = k ∧ encodes p r.
Proof.
  intros Hhi H.
  pose proof (byte_range c0) as R0.
  destruct s1 as [|c1 [|c2 [|c3 t]]];
    try pose proof (byte_range c1) as R1;
    try pose proof (byte_range c2) as R2;
    try pose proof (byte_range c3) as R3;
    revert H; unfold DecodeRuneInString, first, at_, locb, hicb;
    simpl String.length; simpl String.get;
    split_ifs; intros [= <- <-]; try (left; done); try lia; right;
    first
      [ eexists (String c0 (String c1 "")), _;
        split; [reflexivity | split; [reflexivity | apply encodes2; lia]]
      | eexists (String c0 (String c1 (String c2 ""))), _;
        split; [reflexivity | split; [reflexivity | apply encodes3; lia]]
      | eexists (String c0 (String c1 (String c2 (String c3 "")))), _;
        split; [reflexivity | split; [reflexivity | apply encodes4; lia]] ].
Qed.

Lemma decode_ascii c0 s1 :
  byte c0 < 0x80 → DecodeRuneInString (String c0 s1) = (byte c0, 1%nat).
Proof.
  intros H. pose proof (byte_range c0).
  unfold DecodeRuneInString, first. zb. done.
Qed.

Lemma decode_size c0 s1 r k :
  DecodeRuneInString (String c0 s1) = (r, k) → (1 <= k <= 4)%nat.
Proof.
  unfold DecodeRuneInString, first. split_ifs; intros [= <- <-]; lia.
Qed.

Lemma str_take_append p t : str_take (String.length p) (p +:+ t) = p.
Proof. induction p; simpl; [destruct t|]; congruence. Qed.

Lemma str_drop_append p t : str_drop (String.length p) (p +:+ t) = t.
Proof. induction p; simpl; congruence. Qed.

Lemma first_size b sz lo hi :
  first b = FLead sz lo hi → sz = 2%nat ∨ sz = 3%nat ∨ sz = 4%nat.
Proof. unfold first. split_ifs; intros [= <- <- <-]; auto. Qed.

(** [DecodeRuneInString] reads at most [UTFMax] bytes. *)
Lemma decode_take4 s :
  DecodeRuneInString (str_take UTFMax s) = DecodeRuneInString s.
Proof.
  destruct s as [|c0 [|c1 [|c2 [|c3 t]]]]; try reflexivity.
  unfold UTFMax. simpl str_take. unfold DecodeRuneInString, at_.
  destruct (first (byte c0)) as [| |sz lo hi] eqn:F; try reflexivity.
  apply first_size in F as [->|[->| ->]]; reflexivity.
Qed.
End Utf8Facts.

(** ** Printing an integer and parsing it again *)

Module StrconvFacts.
Import Strconv.

Lemma is_digit_digit d : 0 <= d < 10 → is_digit (digit d) = true ∧ byte (digit d) - 48 = d.
Proof.
  intros H. unfold is_digit, digit. rewrite byte_chr by lia. split; lia.
Qed.

Lemma parse_digits_app a x y :
  parse_digits a (x +:+ y) =
  match parse_digits a x with Some v => parse_digits v y | None => None end.
Proof.
  revert a; induction x as [|c x IH]; intros a; simpl; [done|].
  destruct (is_digit c); [apply IH | done].
Qed.

(** What [format_bits] puts in front of [acc]. *)
Lemma format_bits_spec fuel : ∀ u acc,
  (0 < fuel)%nat → 0 <= u < 10 ^ Z.of_nat fuel →
  ∃ c ds,
    format_bits fuel u acc = String c ds +:+ acc
    ∧ all_digits (String c ds) = true
    ∧ (∀ a, parse_digits a (String c ds) = Some (a * 10 ^ Z.of_nat (S (String.length ds)) + u))
    ∧ (if u =? 0 then c = digit 0 ∧ ds = "" else 49 <= byte c <= 57).
Proof.
  induction fuel as [|fuel IH]; intros u acc Hf Hu; [lia|].
  simpl format_bits.
  destruct (u <? 10) eqn:E.
  - apply Z.ltb_lt in E. exists (digit (u mod 10)), "".
    rewrite Z.mod_small by lia.
    destruct (is_digit_digit u ltac:(lia)) as [D1 D2].
    repeat split.
    + simpl. rewrite D1. done.
    + intros a. change (Z.of_nat (S (String.length ""))) with 1.
      rewrite Z.pow_1_r. simpl. rewrite D1, D2. done.
    + destruct (u =? 0) eqn:E0; [apply Z.eqb_eq in E0; subst; done|].
      apply Z.eqb_neq in E0. unfold digit. rewrite byte_chr by lia. lia.
  - apply Z.ltb_ge in E.
    destruct (IH (u / 10) (String (digit (u mod 10)) acc)) as (c & ds & H1 & H2 & H3 & H4).
    { destruct fuel; [simpl in Hu; lia | lia]. }
    { rewrite Nat2Z.inj_succ, Z.pow_succ_r in Hu by lia.
      split; [apply Z.div_pos; lia|]. apply Z.div_lt_upper_bound; lia. }
    exists c, (ds +:+ String (digit (u mod 10)) "").
    destruct (is_digit_digit (u mod 10)) as [D1 D2].
    { apply Z.mod_pos_bound. lia. }
    repeat split.
    + rewrite H1. simpl. f_equal. rewrite append_assoc. done.
    + simpl in H2 |- *. apply andb_true_iff in H2 as [-> H2]. simpl.
      clear -H2 D1. induction ds as [|x ds IHd]; simpl in *.
      * rewrite D1. done.
      * apply andb_true_iff in H2 as [-> H2]. simpl. auto.
    + intros a. change (String c (ds +:+ String (digit (u mod 10)) ""))
        with ((String c ds) +:+ String (digit (u mod 10)) "").
      rewrite parse_digits_app, H3. simpl. rewrite D1, D2.
      f_equal. rewrite length_append. simpl String.length.
      replace (Z.of_nat (S (String.length ds + 1))) with (Z.succ (Z.of_nat (S (String.length ds)))) by lia.
      rewrite Z.pow_succ_r by lia.
      pose proof (Z.div_mod u 10 ltac:(lia)). lia.
    + destruct (u =? 0) eqn:E0; [apply Z.eqb_eq in E0; lia|].
      destruct (u / 10 =? 0) eqn:E1; [apply Z.eqb_eq in E1|done].
      pose proof (Z.div_mod u 10 ltac:(lia)).
      pose proof (Z.mod_pos_bound u 10 ltac:(lia)). lia.
Qed.

Lemma utoa_fuel u : 0 <= u → u < 10 ^ Z.of_nat (S (Z.to_nat (Z.log2 u))).
Proof.
  intros H. destruct (Z.eq_dec u 0) as [->|Hne]; [simpl; lia|].
  pose proof (Z.log2_nonneg u).
  rewrite Nat2Z.inj_succ, Z2Nat.id by lia.
  pose proof (Z.log2_spec u ltac:(lia)) as [_ L].
  eapply Z.lt_le_trans; [exact L|].
  apply Z.pow_le_mono_l. lia.
Qed.

Lemma utoa_spec u : 0 <= u →
  ∃ c ds,
    utoa u = String c ds
    ∧ all_digits (String c ds) = true
    ∧ parse_digits 0 (String c ds) = Some u
    ∧ (if u =? 0 then c = digit 0 ∧ ds = "" else 49 <= byte c <= 57).
Proof.
  intros H. destruct (format_bits_spec (S (Z.to_nat (Z.log2 u))) u "" ltac:(lia) (conj H (utoa_fuel u H)))
    as (c & ds & H1 & H2 & H3 & H4).
  exists c, ds. unfold utoa. rewrite H1, append_nil_r. repeat split; try done.
  all: rewrite H3; f_equal; lia.
Qed.

(** [ParseInt] reads back what [Itoa] printed. *)
Lemma ParseInt_Itoa i : is_int i → ParseInt (Itoa i) = Some i.
Proof.
  intros Hi. unfold Itoa. destruct (i <? 0) eqn:E.
  - apply Z.ltb_lt in E.
    destruct (utoa_spec (- i) ltac:(lia)) as (c & ds & -> & H2 & H3 & H4).
    unfold ParseInt. simpl Ascii.eqb. cbv iota beta.
    rewrite H3. replace (- - i) with i by lia.
    rewrite (is_intb_true _ Hi). done.
  - apply Z.ltb_ge in E.
    destruct (utoa_spec i ltac:(lia)) as (c & ds & -> & H2 & H3 & H4).
    unfold ParseInt.
    assert (Hc : 48 <= byte c <= 57).
    { simpl in H2. apply andb_true_iff in H2 as [H2 _]. unfold is_digit in H2. lia. }
    assert (Ascii.eqb c "-" = false) as ->.
    { apply Ascii.eqb_neq. intros ->. change (byte "-") with 45 in Hc. lia. }
    assert (Ascii.eqb c "+" = false) as ->.
    { apply Ascii.eqb_neq. intros ->. change (byte "+") with 43 in Hc. lia. }
    rewrite H3, (is_intb_true _ Hi). done.
Qed.
End StrconvFacts.


(** ** The number the encoder writes, as the scanner reads it *)

Module NumberFacts.
Import Strconv StrconvFacts.

Lemma scan_digits ds r :
  all_digits ds = true →
  scan_number N1 (ds +:+ String "}" r) = Some (ds, String "}" r).
Proof.
  induction ds as [|c ds IH]; intros H; simpl in *; [done|].
  apply andb_true_iff in H as [Hc H]. unfold is_digit in Hc.
  unfold num_next. zb. rewrite (IH H). done.
Qed.

Lemma skip_ws_nonspace c r : isSpace c = false → skip_ws (String c r) = String c r.
Proof. intros H. simpl. rewrite H. done. Qed.

Lemma parse_value_utoa fuel d u r :
  0 <= u →
  parse_value (S fuel) d (utoa u +:+ String "}" r)
  = Some (JNum (utoa u), String "}" r).
Proof.
  intros Hu. destruct (utoa_spec u Hu) as (c & ds & -> & H2 & _ & H4).
  simpl in H2. apply andb_true_iff in H2 as [Hc H2]. unfold is_digit in Hc.
  assert (isSpace c = false) as Hsp by (unfold isSpace; zb; done).
  simpl. rewrite Hsp.
  zb. destruct (u =? 0) eqn:E.
  - destruct H4 as [-> ->]. reflexivity.
  - zb. rewrite scan_digits by done. done.
Qed.

Lemma parse_value_Itoa fuel d i r :
  parse_value (S fuel) d (Itoa i +:+ String "}" r)
  = Some (JNum (Itoa i), String "}" r).
Proof.
  unfold Itoa. destruct (i <? 0) eqn:E; [|apply parse_value_utoa; lia].
  apply Z.ltb_lt in E.
  destruct (utoa_spec (- i) ltac:(lia)) as (c & ds & -> & H2 & _ & H4).
  simpl in H2. apply andb_true_iff in H2 as [Hc H2]. unfold is_digit in Hc.
  replace (- i =? 0) with false in H4 by lia.
  simpl. unfold num_next. zb. rewrite scan_digits by done. done.
Qed.
End NumberFacts.

(** ** The string literal the encoder writes, as the decoder reads it *)

Module StringFacts.
Import Utf8 Utf8Facts.

(** The scanner walks over an escape the encoder wrote. *)
Lemma scan_escape_b c Y :
  (byte c <? 0x80) = true → htmlSafe (byte c) = false →
  scan_string InString (escape (byte c) +:+ Y)
  = prependS (escape (byte c)) (scan_string InString Y).
Proof.
  destruct c as [[] [] [] [] [] [] [] []]; intros H1 H2;
    vm_compute in H1; try discriminate H1;
    vm_compute in H2; try discriminate H2;
    simpl; destruct (scan_string InString Y) as [[? ?]|]; reflexivity.
Qed.

(** and [unquoteBytes] turns it back into the byte. *)
Lemma unquote_escape_b c fu Y :
  (byte c <? 0x80) = true → htmlSafe (byte c) = false →
  unquote_loop (S fu) (escape (byte c) +:+ Y)
  = prepend (String c "") (unquote_loop fu Y).
Proof.
  destruct c as [[] [] [] [] [] [] [] []]; intros H1 H2;
    vm_compute in H1; try discriminate H1;
    vm_compute in H2; try discriminate H2;
    reflexivity.
Qed.

Lemma prependS_Some p body rest o :
  o = Some (body, rest) → prependS p o = Some (p +:+ body, rest).
Proof. intros ->. done. Qed.

(** The scanner walks over bytes from 0x80 up. *)
Lemma scan_high p Y :
  all_high p = true →
  scan_string InString (p +:+ Y) = prependS p (scan_string InString Y).
Proof.
  induction p as [|c p IH]; intros H; simpl in *.
  - destruct (scan_string InString Y) as [[? ?]|]; done.
  - apply andb_true_iff in H as [Hc H]. pose proof (byte_range c).
    zb. rewrite (IH H).
    destruct (scan_string InString Y) as [[? ?]|]; done.
Qed.

Lemma all_high_first c p : all_high (String c p) = true → 0x80 <= byte c.
Proof. simpl. intros H. apply andb_true_iff in H as [H _]. lia. Qed.

Lemma valid_loop_cons fv c r :
  valid_loop (S fv) (String c r) = true →
  ∃ rn size,
    DecodeRuneInString (String c r) = (rn, size)
    ∧ (rn =? RuneError) && (size =? 1)%nat = false
    ∧ valid_loop fv (str_drop size (String c r)) = true.
Proof.
  change (valid_loop (S fv) (String c r))
    with (let '(rn, size) := DecodeRuneInString (String c r) in
          if (rn =? RuneError) && (size =? 1)%nat then false
          else valid_loop fv (str_drop size (String c r))).
  destruct (DecodeRuneInString (String c r)) as [rn size].
  destruct ((rn =? RuneError) && (size =? 1)%nat) eqn:E; [discriminate|].
  eauto.
Qed.

Lemma unquote_high fu c s :
  0x80 <= byte c →
  unquote_loop (S fu) (String c s)
  = let '(rr, size) := DecodeRuneInString (String c s) in
    prepend (EncodeRune rr) (unquote_loop fu (str_drop size (String c s))).
Proof.
  intros H. pose proof (byte_range c).
  unfold unquote_loop at 1; fold unquote_loop. unfold RuneSelf. zb.
  reflexivity.
Qed.

Lemma appendString_loop_eq fe c r :
  appendString_loop (S fe) (String c r)
  = if byte c <? RuneSelf then
      if htmlSafe (byte c) then String c (appendString_loop fe r)
      else escape (byte c) +:+ appendString_loop fe r
    else
      let '(rn, size) := DecodeRuneInString (str_take UTFMax (String c r)) in
      if (rn =? RuneError) && (size =? 1)%nat then
        String backslash "ufffd" +:+ appendString_loop fe r
      else if (rn =? 0x2028) || (rn =? 0x2029) then
        String backslash ("u202" +:+ String (hex (Z.land rn 0xF)) "")
        +:+ appendString_loop fe (str_drop size (String c r))
      else
        str_take size (String c r)
        +:+ appendString_loop fe (str_drop size (String c r)).
Proof. reflexivity. Qed.

(** The string literal the encoder writes for a valid UTF-8 string is
    scanned up to its closing quote and unquoted to the string. *)
Lemma quote_roundtrip n : ∀ src fe fv,
  (String.length src <= n)%nat →
  (String.length src <= fe)%nat → (String.length src <= fv)%nat →
  valid_loop fv src = true →
  (∀ X, scan_string InString (appendString_loop fe src +:+ String dquote X)
        = Some (appendString_loop fe src, X))
  ∧ (∀ fu, (String.length (appendString_loop fe src) <= fu)%nat →
           unquote_loop fu (appendString_loop fe src) = Some src).
Proof.
  induction n as [|n IH]; intros src fe fv Hn Hfe Hfv Hv.
  { destruct src; [|simpl in Hn; lia]. destruct fe; split; intros; try done;
      destruct fu; done. }
  destruct src as [|c r].
  { destruct fe; split; intros; try done; destruct fu; done. }
  destruct fe as [|fe]; [simpl in Hfe; lia|].
  destruct fv as [|fv]; [simpl in Hfv; lia|].
  simpl in Hn, Hfe, Hfv.
  apply valid_loop_cons in Hv as (rn & size & HD & Hok & Hv).
  pose proof (byte_range c) as Rc.
  rewrite appendString_loop_eq. unfold RuneSelf.
  destruct (byte c <? 128) eqn:Easc.
  - (* ASCII *)
    rewrite decode_ascii in HD by lia. injection HD as <- <-.
    simpl in Hv.
    destruct (IH r fe fv ltac:(lia) ltac:(lia) ltac:(lia) Hv) as [IHs IHu].
    destruct (htmlSafe (byte c)) eqn:Esafe.
    + unfold htmlSafe in Esafe. split.
      * intros X. simpl. zb. rewrite IHs. done.
      * intros fu Hfu. simpl in Hfu. destruct fu as [|fu]; [lia|].
        simpl. unfold RuneSelf. zb. rewrite IHu by lia. done.
    + split.
      * intros X. rewrite append_assoc, scan_escape_b by done.
        rewrite IHs. done.
      * intros fu Hfu. rewrite length_append in Hfu.
        assert (2 <= String.length (escape (byte c)))%nat.
        { unfold escape. split_ifs; simpl; lia. }
        destruct fu as [|fu]; [lia|].
        rewrite unquote_escape_b by done. rewrite IHu by lia. done.
  - (* multi-byte *)
    rewrite decode_take4, HD. rewrite Hok.
    destruct (decode_multibyte c r rn size ltac:(lia) HD)
      as [[-> ->]|(p & t & Hsrc & Hlen & Hhigh & Hplen & Henc & Hdec)].
    { simpl in Hok. discriminate. }
    rewrite Hsrc, <- Hlen, str_drop_append, str_take_append in *.
    assert (String.length r = (String.length p + String.length t - 1)%nat) as Hr.
    { apply (f_equal String.length) in Hsrc. rewrite length_append in Hsrc.
      simpl in Hsrc. lia. }
    destruct (IH t fe fv ltac:(lia) ltac:(lia) ltac:(lia) Hv) as [IHs IHu].
    destruct ((rn =? 8232) || (rn =? 8233)) eqn:Esep.
    + assert (rn = 0x2028 ∨ rn = 0x2029) as Hrn by lia.
      split.
      * intros X. destruct Hrn as [-> | ->]; simpl; rewrite IHs; done.
      * intros fu Hfu. destruct fu as [|fu]; [simpl in Hfu; lia|].
        destruct Hrn as [-> | ->]; subst p; simpl in Hfu |- *;
          rewrite IHu by lia; reflexivity.
    + split.
      * intros X. rewrite append_assoc, scan_high by done.
        rewrite IHs. done.
      * intros fu Hfu. rewrite length_append in Hfu.
        destruct fu as [|fu]; [lia|].
        destruct p as [|c' p']; [simpl in Hplen; lia|].
        pose proof (all_high_first _ _ Hhigh) as Hc'.
        pose proof (byte_range c').
        simpl String.append. rewrite unquote_high by done.
        change (String c' (p' +:+ appendString_loop fe t))
          with (String c' p' +:+ appendString_loop fe t).
        rewrite Hdec, Henc, str_drop_append.
        rewrite IHu by (simpl in Hfu; lia). done.
Qed.

Lemma quote_body_roundtrip src :
  ValidString src = true →
  (∀ X, scan_string InString (quote_body src +:+ String dquote X)
        = Some (quote_body src, X))
  ∧ unquote (quote_body src) = Some src.
Proof.
  intros Hv. unfold quote_body, unquote.
  destruct (quote_roundtrip (String.length src) src (String.length src)
              (String.length src) ltac:(lia) ltac:(lia) ltac:(lia) Hv) as [H1 H2].
  split; [done|]. apply H2. lia.
Qed.

Lemma parse_string_appendString src X :
  ValidString src = true →
  parse_string (quote_body src +:+ String dquote X) = Some (src, X).
Proof.
  intros Hv. destruct (quote_body_roundtrip src Hv) as [H1 H2].
  unfold parse_string. rewrite H1, H2. done.
Qed.
End StringFacts.


(** ** Decoding an encoded message *)

Module CodecFacts.
Import Utf8 StringFacts.

Lemma parse_value_object fuel d s ms rest :
  d + 1 <= maxNestingDepth →
  parse_members fuel (d + 1) (String dquote s) = Some (ms, rest) →
  parse_value (S fuel) d (String "{" (String dquote s)) = Some (JObj ms, rest).
Proof.
  intros Hd H. simpl. replace (maxNestingDepth <? d + 1) with false by lia.
  simpl in H. rewrite H. done.
Qed.

Lemma parse_value_string fuel d s t X :
  parse_string s = Some (t, X) →
  parse_value (S fuel) d (String dquote s) = Some (JStr t, X).
Proof. intros H. simpl. rewrite H. done. Qed.

Lemma parse_members_step fuel d s k r2 v r4 ms rest :
  parse_string s = Some (k, String ":" r2) →
  parse_value fuel d r2 = Some (v, String "," r4) →
  parse_members fuel d r4 = Some (ms, rest) →
  parse_members (S fuel) d (String dquote s) = Some ((k, v) :: ms, rest).
Proof. intros H1 H2 H3. simpl. rewrite H1. simpl. rewrite H2. simpl. rewrite H3. done. Qed.

Lemma parse_members_last fuel d s k r2 v r4 :
  parse_string s = Some (k, String ":" r2) →
  parse_value fuel d r2 = Some (v, String "}" r4) →
  parse_members (S fuel) d (String dquote s) = Some ([(k, v)], r4).
Proof. intros H1 H2. simpl. rewrite H1. simpl. rewrite H2. done. Qed.

Lemma parse_key_type X : parse_string ("type" +:+ String dquote X) = Some ("type", X).
Proof. reflexivity. Qed.
Lemma parse_key_content X :
  parse_string ("content" +:+ String dquote X) = Some ("content", X).
Proof. reflexivity. Qed.
Lemma parse_key_from X : parse_string ("from" +:+ String dquote X) = Some ("from", X).
Proof. reflexivity. Qed.

(** The text [encode] writes, as the parser walks it. *)
Lemma encode_shape m rest :
  encode m +:+ rest
  = String "{" (String dquote
      ("type" +:+ String dquote (String ":" (String dquote
        (quote_body (Type_ m) +:+ String dquote (String "," (String dquote
          ("content" +:+ String dquote (String ":" (String dquote
            (quote_body (Content m) +:+ String dquote (String "," (String dquote
              ("from" +:+ String dquote (String ":"
                (Strconv.Itoa (From m) +:+ String "}" (String newline rest))))))))))))))))).
Proof.
  unfold encode, appendString, key. simpl.
  repeat (rewrite !append_assoc; simpl). reflexivity.
Qed.

Lemma parse_value_encode f d m rest :
  d + 1 <= maxNestingDepth →
  ValidString (Type_ m) = true → ValidString (Content m) = true →
  parse_value (S (S (S (S (S f))))) d (encode m +:+ rest)
  = Some (JObj [("type", JStr (Type_ m)); ("content", JStr (Content m));
                ("from", JNum (Strconv.Itoa (From m)))],
          String newline rest).
Proof.
  intros Hd Ht Hc. rewrite encode_shape.
  apply parse_value_object; [done|].
  eapply parse_members_step; [apply parse_key_type | |].
  { apply parse_value_string. apply parse_string_appendString. done. }
  eapply parse_members_step; [apply parse_key_content | |].
  { apply parse_value_string. apply parse_string_appendString. done. }
  eapply parse_members_last; [apply parse_key_from |].
  apply NumberFacts.parse_value_Itoa.
Qed.

Lemma unmarshal_encode m :
  is_int (From m) →
  unmarshal (JObj [("type", JStr (Type_ m)); ("content", JStr (Content m));
                   ("from", JNum (Strconv.Itoa (From m)))]) = inr m.
Proof.
  intros Hi. destruct m as [T C F]. simpl in *.
  change (lookup_field "type") with (Some FType).
  change (lookup_field "content") with (Some FContent).
  change (lookup_field "from") with (Some FFrom).
  cbv iota beta. rewrite StrconvFacts.ParseInt_Itoa by done. done.
Qed.

(** Decoding what [encode] wrote, whatever follows in the stream. *)
Lemma decode_encode m rest :
  ValidString (Type_ m) = true → ValidString (Content m) = true →
  is_int (From m) →
  decode (encode m +:+ rest) = inr (m, String newline rest).
Proof.
  intros Ht Hc Hi. unfold decode.
  assert (∃ f, S (String.length (encode m +:+ rest)) = S (S (S (S (S f))))) as [f Hf].
  { rewrite encode_shape. simpl String.length. eauto. }
  rewrite Hf, parse_value_encode by (unfold maxNestingDepth; done || lia).
  rewrite unmarshal_encode by done.
  rewrite encode_shape. done.
Qed.
End CodecFacts.

Import Utf8Facts.

(** ** The fuel of the loops is enough *)

Lemma str_drop_shorter n c r :
  (1 <= n)%nat → (String.length (str_drop n (String c r)) <= String.length r)%nat.
Proof.
  intros H. destruct n as [|n]; [lia|]. simpl. apply str_drop_length.
Qed.

(** The loops over strings do not depend on their fuel, once it covers
    the length of the string. *)
Lemma unquote_loop_fuel f1 : ∀ f2 s,
  (String.length s <= f1)%nat → (String.length s <= f2)%nat →
  unquote_loop f1 s = unquote_loop f2 s.
Proof.
  induction f1 as [|f1 IH]; intros f2 s H1 H2.
  { destruct s; [|simpl in H1; lia]. destruct f2; done. }
  destruct s as [|c r]; [destruct f2; done|].
  destruct f2 as [|f2]; [simpl in H2; lia|].
  simpl in H1, H2.
  pose proof (str_drop_shorter 6 c r ltac:(lia)) as D6.
  pose proof (str_drop_length 6 (str_drop 6 (String c r))) as D12.
  cbn [unquote_loop].
  destruct (DecodeRuneInString (String c r)) as [rr size] eqn:HD.
  pose proof (decode_size _ _ _ _ HD) as Hsz.
  pose proof (str_drop_shorter size c r ltac:(lia)) as Dsz.
  destruct r as [|e r']; simpl in H1, H2;
    split_ifs; try done; f_equal; apply IH; simpl in *; lia.
Qed.

Lemma appendString_loop_fuel f1 : ∀ f2 s,
  (String.length s <= f1)%nat → (String.length s <= f2)%nat →
  appendString_loop f1 s = appendString_loop f2 s.
Proof.
  induction f1 as [|f1 IH]; intros f2 s H1 H2.
  { destruct s; [|simpl in H1; lia]. destruct f2; done. }
  destruct s as [|c r]; [destruct f2; done|].
  destruct f2 as [|f2]; [simpl in H2; lia|].
  simpl in H1, H2.
  rewrite !StringFacts.appendString_loop_eq.
  destruct (DecodeRuneInString (str_take UTFMax (String c r))) as [rr size] eqn:HD.
  rewrite decode_take4 in HD.
  pose proof (decode_size _ _ _ _ HD) as Hsz.
  pose proof (str_drop_shorter size c r ltac:(lia)) as Dsz.
  split_ifs; f_equal; apply IH; lia.
Qed.

Lemma valid_loop_fuel f1 : ∀ f2 s,
  (String.length s <= f1)%nat → (String.length s <= f2)%nat →
  valid_loop f1 s = valid_loop f2 s.
Proof.
  induction f1 as [|f1 IH]; intros f2 s H1 H2.
  { destruct s; [|simpl in H1; lia]. destruct f2; done. }
  destruct s as [|c r]; [destruct f2; done|].
  destruct f2 as [|f2]; [simpl in H2; lia|].
  simpl in H1, H2.
  cbn [valid_loop].
  destruct (DecodeRuneInString (String c r)) as [rr size] eqn:HD.
  pose proof (decode_size _ _ _ _ HD) as Hsz.
  pose proof (str_drop_shorter size c r ltac:(lia)) as Dsz.
  split_ifs; [done|]. apply IH; lia.
Qed.

(** A value parsed with some fuel is parsed alike with any fuel above
    the number of bytes it takes. *)
Lemma parse_fuel f :
  (∀ d s v rest, parse_value f d s = Some (v, rest) →
     ∀ f', (String.length s - String.length rest < f')%nat →
           parse_value f' d s = Some (v, rest))
  ∧ (∀ d s ms rest, parse_members f d s = Some (ms, rest) →
     ∀ f', (String.length s - String.length rest < f')%nat →
           parse_members f' d s = Some (ms, rest))
  ∧ (∀ d s vs rest, parse_elems f d s = Some (vs, rest) →
     ∀ f', (String.length s - String.length rest < f')%nat →
           parse_elems f' d s = Some (vs, rest)).
Proof.
  induction f as [|f (IHv & IHm & IHe)]; [repeat split; intros; discriminate|].
  repeat split.
  - intros d s v rest H f' Hf'.
    pose proof (proj1 (parse_length _) _ _ _ _ H) as Hlen.
    destruct f' as [|f']; [lia|].
    simpl in H |- *. split_both H; try (injection H as <- <-); learn skip_ws_cons_length; learn parse_string_length;
      learn scan_number_length; learn expect_length;
      learn (proj1 (parse_length f)); learn (proj1 (proj2 (parse_length f)));
      learn (proj2 (proj2 (parse_length f)));
      repeat match goal with
      | E : parse_members f _ _ = Some _ |- _ =>
        rewrite (IHm _ _ _ _ E f') by (simpl in *; lia); clear E
      | E : parse_elems f _ _ = Some _ |- _ =>
        rewrite (IHe _ _ _ _ E f') by (simpl in *; lia); clear E
      end; done.
  - intros d s ms rest H f' Hf'.
    pose proof (proj1 (proj2 (parse_length _)) _ _ _ _ H) as Hlen.
    destruct f' as [|f']; [lia|].
    simpl in H |- *. split_both H; try (injection H as <- <-); learn skip_ws_cons_length; learn parse_string_length;
      learn scan_number_length; learn expect_length;
      learn (proj1 (parse_length f)); learn (proj1 (proj2 (parse_length f)));
      learn (proj2 (proj2 (parse_length f)));
      repeat match goal with
      | E : parse_value f _ _ = Some _ |- _ =>
        rewrite (IHv _ _ _ _ E f') by (simpl in *; lia); clear E
      | E : parse_members f _ _ = Some _ |- _ =>
        rewrite (IHm _ _ _ _ E f') by (simpl in *; lia); clear E
      | E : skip_ws _ = String _ _ |- _ => rewrite E; clear E
      end; simpl; repeat match goal with E : _ = _ |- _ => rewrite E end; done.
  - intros d s vs rest H f' Hf'.
    pose proof (proj2 (proj2 (parse_length _)) _ _ _ _ H) as Hlen.
    destruct f' as [|f']; [lia|].
    simpl in H |- *. split_both H; try (injection H as <- <-); learn skip_ws_cons_length; learn parse_string_length;
      learn scan_number_length; learn expect_length;
      learn (proj1 (parse_length f)); learn (proj1 (proj2 (parse_length f)));
      learn (proj2 (proj2 (parse_length f)));
      repeat match goal with
      | E : parse_value f _ _ = Some _ |- _ =>
        rewrite (IHv _ _ _ _ E f') by (simpl in *; lia); clear E
      | E : parse_elems f _ _ = Some _ |- _ =>
        rewrite (IHe _ _ _ _ E f') by (simpl in *; lia); clear E
      | E : skip_ws _ = String _ _ |- _ => rewrite E; clear E
      end; simpl; repeat match goal with E : _ = _ |- _ => rewrite E end; done.
Qed.

(** The decoder's fuel is enough: a value that some fuel parses, the
    decoder parses. *)
Lemma parse_value_enough f d s v rest :
  parse_value f d s = Some (v, rest) →
  parse_value (S (String.length s)) d s = Some (v, rest).
Proof.
  intros H. apply (proj1 (parse_fuel f) _ _ _ _ H). lia.
Qed.

(** ** Streams of messages *)

Lemma skip_ws_idem s : skip_ws (skip_ws s) = skip_ws s.
Proof.
  induction s as [|c r IH]; simpl; [done|].
  destruct (isSpace c) eqn:E; [done|]. simpl. rewrite E. done.
Qed.

Lemma parse_value_skip_ws f d s : parse_value f d (skip_ws s) = parse_value f d s.
Proof. destruct f; simpl; [done|]. rewrite skip_ws_idem. done. Qed.

Lemma decode_newline_encode m rest :
  valid_Message m →
  decode (String newline (encode m +:+ rest)) = inr (m, String newline rest).
Proof.
  intros (Ht & Hc & Hi). unfold decode.
  change (skip_ws (String newline (encode m +:+ rest)))
    with (skip_ws (encode m +:+ rest)).
  rewrite <- parse_value_skip_ws.
  change (skip_ws (String newline (encode m +:+ rest)))
    with (skip_ws (encode m +:+ rest)).
  rewrite parse_value_skip_ws.
  assert (∃ f, S (String.length (String newline (encode m +:+ rest)))
               = S (S (S (S (S f))))) as [f Hf].
  { rewrite CodecFacts.encode_shape. simpl String.length. eauto. }
  rewrite Hf, CodecFacts.parse_value_encode by (unfold maxNestingDepth; done || lia).
  rewrite CodecFacts.unmarshal_encode by done.
  rewrite CodecFacts.encode_shape. done.
Qed.

Lemma decode_only_newline : decode (String newline "") = inl ErrEOF.
Proof. reflexivity. Qed.

Lemma decodes_newline_encode_all ms :
  Forall valid_Message ms →
  ms ≠ [] →
  decodes (String newline (encode_all ms)) ms (String newline "").
Proof.
  induction 1 as [|m ms Hm Hms IH]; intros Hne; [done|].
  destruct ms as [|m' ms'].
  - change (encode_all [m]) with (encode m +:+ "").
    econstructor; [by apply decode_newline_encode | constructor].
  - change (encode_all (m :: m' :: ms')) with (encode m +:+ encode_all (m' :: ms')).
    econstructor; [by apply decode_newline_encode | by apply IH].
Qed.

Lemma decodes_encode_all ms :
  Forall valid_Message ms →
  ∃ rest, decodes (encode_all ms) ms rest ∧ decode rest = inl ErrEOF.
Proof.
  intros H. destruct H as [|m ms Hm Hms].
  - exists "". split; [constructor | reflexivity].
  - exists (String newline ""). split; [|reflexivity].
    destruct Hm as (Ht & Hc & Hi).
    change (encode_all (m :: ms)) with (encode m +:+ encode_all ms).
    econstructor; [by apply CodecFacts.decode_encode|].
    destruct ms as [|m' ms'].
    + constructor.
    + apply decodes_newline_encode_all; done.
Qed.

(** ** The receive loop *)

(** The fuel of the receive loop is enough: every message handled took
    input. *)
Lemma handle_loop_enough f1 : ∀ f2 input st,
  (String.length input < f1)%nat → (String.length input < f2)%nat →
  handle_loop f1 input st = handle_loop f2 input st.
Proof.
  induction f1 as [|f1 IH]; intros f2 input st H1 H2; [lia|].
  destruct f2 as [|f2]; [lia|]. simpl.
  destruct (decode input) as [e|[m rest]] eqn:E; [done|].
  apply decode_length in E. apply IH; lia.
Qed.

Lemma handle_input_step input m rest st :
  decode input = inr (m, rest) →
  handle_input input st = handle_input rest (dispatch m st).
Proof.
  intros E. unfold handle_input.
  change (handle_loop (S (String.length input)) input st)
    with (match decode input with
          | inl _ => st
          | inr (msg, rest) => handle_loop (String.length input) rest (dispatch msg st)
          end).
  rewrite E. apply handle_loop_enough; [apply decode_length in E|]; lia.
Qed.

Lemma handle_input_stop input e st :
  decode input = inl e → handle_input input st = st.
Proof. intros E. unfold handle_input. simpl. rewrite E. done. Qed.

Lemma handle_input_decodes input ms rest e : ∀ st,
  decodes input ms rest → decode rest = inl e →
  handle_input input st = fold_left (fun st m => dispatch m st) ms st.
Proof.
  intros st H. revert st. induction H as [s|s m r ms r' Hd _ IH]; intros st He.
  - simpl. by eapply handle_input_stop.
  - simpl. rewrite (handle_input_step _ _ _ _ Hd). by apply IH.
Qed.

(** Every input has a first failure. *)
Lemma decodes_until_failure input :
  ∃ ms rest e, decodes input ms rest ∧ decode rest = inl e.
Proof.
  remember (String.length input) as n eqn:Hn.
  revert input Hn. induction n as [n IH] using lt_wf_ind. intros input ->.
  destruct (decode input) as [e|[m r]] eqn:E.
  - exists [], input, e. split; [constructor | done].
  - destruct (IH (String.length r) (decode_length _ _ _ E) r eq_refl)
      as (ms & rest & e & Hd & He).
    exists (m :: ms), rest, e. split; [by econstructor | done].
Qed.

(** ** What the operations leave alone *)

Lemma node_emit e st : node (emit e st) = node st.
Proof. done. Qed.

Lemma node_Write c bytes st : node (snd (Write c bytes st)) = node st.
Proof. unfold Write. repeat case_match; done. Qed.

Lemma node_sendMessage id msg st : node (sendMessage id msg st) = node st.
Proof.
  unfold sendMessage. destruct (lookup_conn id (node st)); [|done].
  pose proof (node_Write c (encode msg) st) as H.
  destruct (Write c (encode msg) st) as [[e|] st']; simpl in *; done.
Qed.

Lemma node_dispatch msg st : node (dispatch msg st) = node st.
Proof.
  unfold dispatch. repeat case_match; try done.
  rewrite node_sendMessage. done.
Qed.

Lemma node_handle_loop fuel : ∀ input st, node (handle_loop fuel input st) = node st.
Proof.
  induction fuel as [|fuel IH]; intros input st; simpl; [done|].
  destruct (decode input) as [e|[m rest]]; [done|].
  rewrite IH. apply node_dispatch.
Qed.

Lemma node_tick order : ∀ st, node (sendHeartbeats_tick order st) = node st.
Proof.
  unfold sendHeartbeats_tick.
  induction order as [|id order IH]; intros st; simpl; [done|].
  rewrite IH. apply node_sendMessage.
Qed.

(** Only a successful connect changes the node, by one registration of
    the connection it opened. *)
Lemma node_exec op st :
  node (exec op st) = node st
  ∨ ∃ id address,
      op = OpConnect id address
      ∧ node (exec op st)
        = register id address (fresh_conn (conns st)) (node st)
      ∧ conns (exec op st)
        = <[fresh_conn (conns st) := mkConnState "" "" None]> (conns st).
Proof.
  destruct op as [id address|t msg|msg|input|order]; simpl.
  - unfold connectToPeer, Dial. case_decide; simpl; [right; eauto|left; done].
  - left. apply node_sendMessage.
  - left. apply node_dispatch.
  - left. unfold handleConnection, handle_input. rewrite node_handle_loop. done.
  - left. destruct (IsMaster (node st)); [apply node_tick|done].
Qed.

Lemma run_snoc ops op st : run (ops ++ [op]) st = exec op (run ops st).
Proof. unfold run. rewrite fold_left_app. done. Qed.

Lemma conn_exec_other op st id :
  (∀ address, op ≠ OpConnect id address) →
  conn (node (exec op st)) !! id = conn (node st) !! id.
Proof.
  intros Hop. destruct (node_exec op st) as [->|(id' & a & -> & -> & _)]; [done|].
  simpl. apply lookup_insert_ne. intros ->. by eapply Hop.
Qed.

(** The two maps keep the same keys along a run. *)
Lemma run_registry_dom ops : ∀ st,
  dom (Peers (node st)) = dom (conn (node st)) →
  dom (Peers (node (run ops st))) = dom (conn (node (run ops st))).
Proof.
  induction ops as [|op ops IH] using rev_ind; intros st H; [done|].
  rewrite run_snoc.
  destruct (node_exec op (run ops st)) as [->|(id & a & _ & -> & _)]; [by apply IH|].
  simpl. rewrite !dom_insert_L, (IH st H). done.
Qed.

Lemma reachable_registry_dom st :
  reachable st → dom (Peers (node st)) = dom (conn (node st)).
Proof.
  intros (i & master & addrs & ops & ->). apply run_registry_dom.
  simpl. by rewrite !dom_empty_L.
Qed.

Lemma writes_app a b : writes (a ++ b) = writes a ++ writes b.
Proof.
  induction a as [|e a IH]; simpl; [done|]. destruct e; simpl; by rewrite ?IH.
Qed.




(** ** Writes go to registered connections only *)

Lemma conns_sendMessage id msg st c :
  unregistered c (node st) →
  conns (sendMessage id msg st) !! c = conns st !! c.
Proof.
  intros Hc. unfold sendMessage, lookup_conn.
  destruct (conn (node st) !! id) as [c'|] eqn:E; [|done].
  assert (c' ≠ c) by (intros ->; by apply (Hc id)).
  unfold Write. destruct (conns st !! c') as [cs|]; [destruct (broken cs)|]; simpl; try done.
  by apply lookup_insert_ne.
Qed.

Lemma conns_dispatch m st c :
  unregistered c (node st) →
  conns (dispatch m st) !! c = conns st !! c.
Proof.
  intros Hc. unfold dispatch. repeat case_match; try done.
  by rewrite conns_sendMessage.
Qed.

Lemma conns_handle_loop fuel : ∀ input st c,
  unregistered c (node st) →
  conns (handle_loop fuel input st) !! c = conns st !! c.
Proof.
  induction fuel as [|fuel IH]; intros input st c Hc; simpl; [done|].
  destruct (decode input) as [e|[m rest]]; [done|].
  rewrite IH by (by rewrite node_dispatch). by apply conns_dispatch.
Qed.

Lemma open_sendMessage id msg st c :
  is_Some (conns st !! c) → is_Some (conns (sendMessage id msg st) !! c).
Proof.
  intros H. unfold sendMessage. destruct (lookup_conn id (node st)) as [c'|]; [|done].
  unfold Write. destruct (conns st !! c') as [cs|] eqn:E; [destruct (broken cs)|];
    simpl; try done.
  rewrite lookup_insert_is_Some. destruct (decide (c' = c)); auto.
Qed.

Lemma open_dispatch m st c :
  is_Some (conns st !! c) → is_Some (conns (dispatch m st) !! c).
Proof.
  intros H. unfold dispatch. repeat case_match; try done. by apply open_sendMessage.
Qed.

Lemma open_handle_loop fuel : ∀ input st c,
  is_Some (conns st !! c) → is_Some (conns (handle_loop fuel input st) !! c).
Proof.
  induction fuel as [|fuel IH]; intros input st c H; simpl; [done|].
  destruct (decode input) as [e|[m rest]]; [done|].
  apply IH. by apply open_dispatch.
Qed.

Lemma open_tick order : ∀ st c,
  is_Some (conns st !! c) → is_Some (conns (sendHeartbeats_tick order st) !! c).
Proof.
  unfold sendHeartbeats_tick.
  induction order as [|id order IH]; intros st c H; simpl; [done|].
  apply IH. by apply open_sendMessage.
Qed.

Lemma fresh_conn_closed cs : cs !! fresh_conn cs = None.
Proof. apply not_elem_of_dom. unfold fresh_conn. apply is_fresh. Qed.

Lemma open_exec op st c :
  is_Some (conns st !! c) → is_Some (conns (exec op st) !! c).
Proof.
  intros H. destruct op as [id address|t msg|msg|input|order]; simpl.
  - unfold connectToPeer, Dial. case_decide; simpl; [|done].
    rewrite lookup_insert_is_Some.
    destruct (decide (fresh_conn (conns st) = c)); auto.
  - by apply open_sendMessage.
  - by apply open_dispatch.
  - apply open_handle_loop. simpl. rewrite lookup_insert_is_Some.
    destruct (decide (fresh_conn (conns st) = c)); auto.
  - destruct (IsMaster (node st)); [by apply open_tick|done].
Qed.

Lemma registered_open_exec op st :
  registered_open st → registered_open (exec op st).
Proof.
  intros Hinv id c Hc.
  destruct (node_exec op st) as [Hn|(id' & a & -> & Hn & Hcs)].
  - rewrite Hn in Hc. apply open_exec. by eapply Hinv.
  - rewrite Hn in Hc. rewrite Hcs. simpl in Hc.
    rewrite lookup_insert_is_Some.
    destruct (decide (id' = id)) as [->|Hne].
    + rewrite lookup_insert_eq in Hc. injection Hc as <-. by left.
    + rewrite lookup_insert_ne in Hc by done.
      destruct (decide (fresh_conn (conns st) = c)); [by left|].
      right. split; [done|]. by eapply Hinv.
Qed.

Lemma reachable_registered_open st : reachable st → registered_open st.
Proof.
  intros (i & master & addrs & ops & ->).
  induction ops as [|op ops IH] using rev_ind.
  - intros id c H. simpl in H. by rewrite lookup_empty in H.
  - rewrite run_snoc. by apply registered_open_exec.
Qed.

(** ** The command line *)

Module CommandLineFacts.
Import Strings Bufio Strconv StrconvFacts.

(** *** Words *)

Lemma Split_cons s : ∃ w ws, Split s = w :: ws.
Proof.
  induction s as [|c r (w & ws & IH)]; simpl; [eauto|].
  destruct (Ascii.eqb c space); [eauto|]. rewrite IH. eauto.
Qed.

(** [Join] undoes [Split]. *)
Lemma Join_Split s : Join (Split s) = s.
Proof.
  induction s as [|c r IH]; [done|]. simpl Split.
  destruct (Ascii.eqb c space) eqn:E.
  - apply Ascii.eqb_eq in E. subst c.
    destruct (Split_cons r) as (w & ws & Hw). rewrite Hw in *.
    change (Join ("" :: w :: ws)) with ("" +:+ String space (Join (w :: ws))).
    rewrite IH. done.
  - destruct (Split_cons r) as (w & ws & Hw). rewrite Hw in *.
    destruct ws as [|w' ws]; simpl in *; by rewrite IH.
Qed.

Lemma Split_word w r :
  no_space w = true → Split (w +:+ String space r) = w :: Split r.
Proof.
  induction w as [|c w IH]; intros H; simpl in *.
  - done.
  - apply andb_true_iff in H as [Hc H]. apply negb_true_iff in Hc.
    rewrite Hc, IH by done. done.
Qed.

Lemma Split_last w : no_space w = true → Split w = [w].
Proof.
  induction w as [|c w IH]; intros H; simpl in *; [done|].
  apply andb_true_iff in H as [Hc H]. apply negb_true_iff in Hc.
  rewrite Hc, IH by done. done.
Qed.

(** *** Lines *)

Lemma ReadString_lines c s :
  lines (String c s) = (ReadString (String c s)).1 :: lines (ReadString (String c s)).2.
Proof.
  revert c. induction s as [|d s IH]; intros c.
  - simpl. destruct (Ascii.eqb c newline); done.
  - change (lines (String c (String d s)))
      with (if Ascii.eqb c newline then String c "" :: lines (String d s)
            else match lines (String d s) with
                 | l :: ls => String c l :: ls
                 | [] => [String c ""]
                 end).
    change (ReadString (String c (String d s)))
      with (if Ascii.eqb c newline then (String c "", String d s)
            else let '(l, rest) := ReadString (String d s) in (String c l, rest)).
    destruct (Ascii.eqb c newline); [done|].
    rewrite IH. destruct (ReadString (String d s)). done.
Qed.

Lemma ReadString_line l rest :
  no_newline l = true →
  ReadString (l +:+ String newline rest) = (l +:+ String newline "", rest).
Proof.
  induction l as [|c l IH]; intros H; simpl in *; [done|].
  apply andb_true_iff in H as [Hc H]. apply negb_true_iff in Hc.
  rewrite Hc, IH by done. done.
Qed.

(** *** [TrimSpace] on lines with plain bytes at both ends *)

Lemma asciiSpace_low c : asciiSpace (byte c) = true → (RuneSelf <=? byte c) = false.
Proof.
  unfold asciiSpace, RuneSelf. intros H. apply Z.leb_gt.
  repeat (apply orb_true_iff in H as [H|H]); apply Z.eqb_eq in H; lia.
Qed.

Lemma at_append_r a : ∀ b n, at_ (a +:+ b) (String.length a + n) = at_ b n.
Proof. induction a as [|c a IH]; intros b n; simpl; [done|]. apply IH. Qed.

Lemma at_append_0 a b : at_ (a +:+ b) (String.length a) = at_ b 0.
Proof. induction a as [|c a IH]; simpl; [done|]. apply IH. Qed.

Lemma str_take_append_l a : ∀ b, str_take (String.length a) (a +:+ b) = a.
Proof. induction a as [|c a IH]; intros b; simpl; [by destruct b|]. by rewrite IH. Qed.

Lemma string_snoc s : s ≠ "" → ∃ s' d, s = s' +:+ String d "".
Proof.
  induction s as [|c s IH]; intros H; [done|].
  destruct s as [|c' s]; [by exists "", c|].
  destruct (IH ltac:(done)) as (s' & d & ->). by exists (String c s'), d.
Qed.

Lemma all_space_app a b : all_space (a +:+ b) = all_space a && all_space b.
Proof. induction a as [|c a IH]; simpl; [done|]. by rewrite IH, andb_assoc. Qed.

Lemma TrimSpace_stop_S s n :
  TrimSpace_stop s (S n)
  = if RuneSelf <=? at_ s n then TrimRightFunc (str_take (S n) s)
    else if negb (asciiSpace (at_ s n)) then str_take (S n) s
    else TrimSpace_stop s n.
Proof. done. Qed.

Lemma TrimSpace_stop_spec s c n : ∀ b1 b2,
  String.length b1 = n →
  plain c = true → all_space b1 = true →
  TrimSpace_stop ((s +:+ String c "") +:+ b1 +:+ b2)
                 (String.length (s +:+ String c "") + String.length b1)
  = s +:+ String c "".
Proof.
  induction n as [|n IH]; intros b1 b2 Hn Hc Hb.
  - destruct b1; [|done]. simpl String.length at 2. rewrite Nat.add_0_r.
    change ("" +:+ b2) with b2.
    rewrite length_append. simpl String.length. rewrite Nat.add_1_r.
    rewrite TrimSpace_stop_S.
    rewrite !append_assoc, !at_append_0.
    assert (at_ (String c "" +:+ b2) 0 = byte c) as -> by done.
    unfold plain in Hc. apply andb_true_iff in Hc as [H1 H2].
    apply Z.ltb_lt in H1. destruct (RuneSelf <=? byte c) eqn:E; [apply Z.leb_le in E; lia|].
    rewrite H2. rewrite <- append_assoc.
    replace (S (String.length s)) with (String.length (s +:+ String c "")).
    + apply str_take_append_l.
    + rewrite length_append. simpl. lia.
  - destruct (string_snoc b1) as (b1' & d & ->); [by destruct b1|].
    rewrite all_space_app in Hb. apply andb_true_iff in Hb as [Hb Hd].
    simpl in Hd. rewrite andb_true_r in Hd.
    rewrite length_append in Hn. simpl in Hn.
    rewrite (length_append b1'). simpl String.length at 3.
    replace (String.length (s +:+ String c "") + (String.length b1' + 1))%nat
      with (S (String.length (s +:+ String c "") + String.length b1')) by lia.
    rewrite TrimSpace_stop_S.
    assert (at_ ((s +:+ String c "") +:+ (b1' +:+ String d "") +:+ b2)
                (String.length (s +:+ String c "") + String.length b1') = byte d) as ->.
    { rewrite at_append_r, append_assoc, at_append_0. done. }
    rewrite (asciiSpace_low _ Hd), Hd. simpl negb. cbv iota.
    rewrite (append_assoc b1'). apply IH; [lia|done..].
Qed.

Lemma last_plain_snoc s : last_plain s = true → ∃ s' c, s = s' +:+ String c "" ∧ plain c = true.
Proof.
  induction s as [|c s IH]; intros H; [done|].
  destruct s as [|c' s]; [by exists "", c|].
  destruct (IH H) as (s' & d & -> & Hd). by exists (String c s'), d.
Qed.

Lemma TrimSpace_all_space a : all_space a = true → TrimSpace a = "".
Proof.
  induction a as [|c a IH]; intros H; [done|]. simpl in *.
  apply andb_true_iff in H as [Hc H].
  rewrite (asciiSpace_low _ Hc), Hc. simpl. auto.
Qed.

(** [TrimSpace] takes the white space off both ends. *)
Lemma TrimSpace_trimmed a s b :
  all_space a = true → all_space b = true → trimmed s = true →
  TrimSpace (a +:+ s +:+ b) = s.
Proof.
  intros Ha Hb Hs. induction a as [|c a IH].
  - simpl append. destruct s as [|c0 s0].
    + by apply TrimSpace_all_space.
    + unfold trimmed in Hs. apply andb_true_iff in Hs as [H0 Hl].
      destruct (last_plain_snoc _ Hl) as (s' & c1 & Hs' & H1).
      change (String c0 s0 +:+ b) with (String c0 (s0 +:+ b)).
      change (TrimSpace (String c0 (s0 +:+ b)))
        with (if RuneSelf <=? byte c0 then TrimRightFunc (TrimLeftFunc (String c0 (s0 +:+ b)))
              else if negb (asciiSpace (byte c0))
                   then TrimSpace_stop (String c0 (s0 +:+ b)) (String.length (String c0 (s0 +:+ b)))
                   else TrimSpace (s0 +:+ b)).
      unfold plain in H0. apply andb_true_iff in H0 as [H01 H02].
      apply Z.ltb_lt in H01.
      destruct (RuneSelf <=? byte c0) eqn:E; [apply Z.leb_le in E; lia|].
      rewrite H02.
      change (String c0 (s0 +:+ b)) with (String c0 s0 +:+ b).
      rewrite Hs'. rewrite <- (append_nil_r b) at 1.
      rewrite length_append.
      by apply (TrimSpace_stop_spec s' c1 (String.length b)).
  - simpl in Ha. apply andb_true_iff in Ha as [Hc Ha].
    change (TrimSpace (String c a +:+ s +:+ b))
      with (if RuneSelf <=? byte c then TrimRightFunc (TrimLeftFunc (String c a +:+ s +:+ b))
            else if negb (asciiSpace (byte c))
                 then TrimSpace_stop (String c a +:+ s +:+ b) (String.length (String c a +:+ s +:+ b))
                 else TrimSpace (a +:+ s +:+ b)).
    rewrite (asciiSpace_low _ Hc), Hc. simpl. auto.
Qed.

(** *** [Atoi] *)

Lemma parse_digits_bound s : ∀ a v,
  parse_digits a s = Some v → 0 <= a →
  a * 10 ^ Z.of_nat (String.length s) <= v < (a + 1) * 10 ^ Z.of_nat (String.length s).
Proof.
  induction s as [|c s IH]; intros a v H Ha.
  - simpl in *. injection H as <-. lia.
  - simpl parse_digits in H. destruct (is_digit c) eqn:E; [|done].
    unfold is_digit in E. apply IH in H; [|lia].
    simpl String.length. rewrite Nat2Z.inj_succ, Z.pow_succ_r by lia.
    assert (0 < 10 ^ Z.of_nat (String.length s)) by (apply Z.pow_pos_nonneg; lia).
    nia.
Qed.

Lemma parse_digits_all_digits s : ∀ a,
  parse_digits a s = None ↔ all_digits s = false.
Proof.
  induction s as [|c s IH]; intros a; simpl; [done|].
  destruct (is_digit c); simpl; [apply IH | done].
Qed.

(** Where nothing overflows, the loop of [ParseUint] is the plain digit
    loop. *)
Lemma ParseUint_loop_digits s : ∀ n v,
  parse_digits n s = Some v → 0 <= n → v < 2 ^ 64 →
  ParseUint_loop n s = (v, None).
Proof.
  induction s as [|c s IH]; intros n v H Hn Hv.
  - simpl in *. congruence.
  - simpl in *. destruct (is_digit c) eqn:E; [|done].
    unfold is_digit in E.
    pose proof (parse_digits_bound _ _ _ H ltac:(lia)) as B.
    assert (0 < 10 ^ Z.of_nat (String.length s)) by (apply Z.pow_pos_nonneg; lia).
    assert (n * 10 + (byte c - 48) < 2 ^ 64) by nia.
    change (2 ^ 64) with 18446744073709551616 in *.
    change ((18446744073709551616 - 1) / 10 + 1) with 1844674407370955162.
    destruct (1844674407370955162 <=? n) eqn:E1; [lia|].
    destruct (18446744073709551616 - 1 <? n * 10 + (byte c - 48)) eqn:E2; [lia|].
    apply IH; [done|lia|lia].
Qed.

Lemma ParseUint_loop_range s : ∀ n,
  0 <= n → 0 <= (ParseUint_loop n s).1.
Proof.
  induction s as [|c s IH]; intros n Hn; simpl; [done|].
  destruct (is_digit c) eqn:E; [|simpl; lia].
  unfold is_digit in E.
  destruct (_ <=? n); [simpl; lia|].
  destruct (_ <? _); [simpl; lia|]. apply IH. lia.
Qed.

Lemma ParseInt0_int s : is_int (ParseInt0 s).1.
Proof.
  assert (Z0 : is_int 0) by (unfold is_int; lia).
  unfold ParseInt0. destruct s as [|c r]; [done|].
  set (p := if Ascii.eqb c "+" then (false, r) else if Ascii.eqb c "-" then (true, r) else (false, String c r)).
  destruct p as [neg ds]. destruct ds as [|d ds]; [done|].
  pose proof (ParseUint_loop_range (String d ds) 0 ltac:(lia)) as R.
  destruct (ParseUint_loop 0 (String d ds)) as [un e]. simpl in R.
  assert (is_int (if negb neg && (2 ^ 63 <=? un) then (2 ^ 63 - 1, Some ErrRange)
                  else if neg && (2 ^ 63 <? un) then (- 2 ^ 63, Some ErrRange)
                  else (if neg then - un else un, @None NumError)).1).
  { unfold is_int. change (2 ^ 63) with 9223372036854775808 in *.
    destruct neg; simpl.
    - destruct (9223372036854775808 <? un) eqn:E; simpl; lia.
    - destruct (9223372036854775808 <=? un) eqn:E; simpl; lia. }
  destruct e as [[]|]; done.
Qed.

(** Whatever its argument, [Atoi] yields a value of type [int]. *)
Lemma Atoi_int s : is_int (Atoi s).1.
Proof.
  unfold Atoi.
  destruct ((0 <? String.length s)%nat && (String.length s <? 19)%nat) eqn:L;
    [|apply ParseInt0_int].
  assert (Z0 : is_int 0) by (unfold is_int; lia).
  destruct s as [|c r]; [done|].
  apply andb_true_iff in L as [_ L]. apply Nat.ltb_lt in L.
  set (sign := Ascii.eqb c "-" || Ascii.eqb c "+").
  destruct (sign && _); [done|].
  destruct (parse_digits 0 (if sign then r else String c r)) as [n|] eqn:P; [|done].
  apply parse_digits_bound in P; [|lia].
  assert (String.length (if sign then r else String c r) <= 18)%nat
    by (destruct sign; simpl in *; lia).
  assert (10 ^ Z.of_nat (String.length (if sign then r else String c r)) <= 10 ^ 18)
    by (apply Z.pow_le_mono_r; lia).
  unfold is_int. change (10 ^ 18) with 1000000000000000000 in *.
  change (2 ^ 63) with 9223372036854775808.
  destruct (Ascii.eqb c "-"); simpl; lia.
Qed.

(** [Atoi] reads back what [Itoa] printed. *)
Lemma Atoi_Itoa i : is_int i → Atoi (Itoa i) = (i, None).
Proof.
  intros Hi. unfold Atoi.
  destruct ((0 <? String.length (Itoa i))%nat && (String.length (Itoa i) <? 19)%nat).
  - unfold Itoa. destruct (i <? 0) eqn:E.
    + apply Z.ltb_lt in E.
      destruct (utoa_spec (- i) ltac:(lia)) as (c & ds & -> & H2 & H3 & H4).
      cbv zeta. change (Ascii.eqb "-" "-") with true. simpl orb. cbv iota.
      change ((String.length (String c ds) <? 1)%nat) with false.
      simpl andb. cbv iota. rewrite H3. f_equal. lia.
    + apply Z.ltb_ge in E.
      destruct (utoa_spec i ltac:(lia)) as (c & ds & -> & H2 & H3 & H4).
      assert (Hc : 48 <= byte c <= 57).
      { simpl in H2. apply andb_true_iff in H2 as [H2 _]. unfold is_digit in H2. lia. }
      assert (Ascii.eqb c "-" = false) as ->.
      { apply Ascii.eqb_neq. intros ->. change (byte "-") with 45 in Hc. lia. }
      assert (Ascii.eqb c "+" = false) as ->.
      { apply Ascii.eqb_neq. intros ->. change (byte "+") with 43 in Hc. lia. }
      simpl orb. simpl andb. cbv iota. rewrite H3. done.
  - unfold is_int in Hi. change (2 ^ 63) with 9223372036854775808 in Hi.
    unfold Itoa, ParseInt0. destruct (i <? 0) eqn:E.
    + apply Z.ltb_lt in E.
      destruct (utoa_spec (- i) ltac:(lia)) as (c & ds & -> & H2 & H3 & H4).
      simpl Ascii.eqb. cbv iota beta.
      rewrite (ParseUint_loop_digits _ _ _ H3) by (change (2 ^ 64) with 18446744073709551616; lia).
      change (2 ^ 63) with 9223372036854775808.
      destruct (9223372036854775808 <? - i) eqn:E1; [lia|].
      simpl. f_equal. lia.
    + apply Z.ltb_ge in E.
      destruct (utoa_spec i ltac:(lia)) as (c & ds & -> & H2 & H3 & H4).
      assert (Hc : 48 <= byte c <= 57).
      { simpl in H2. apply andb_true_iff in H2 as [H2 _]. unfold is_digit in H2. lia. }
      assert (Ascii.eqb c "-" = false) as ->.
      { apply Ascii.eqb_neq. intros ->. change (byte "-") with 45 in Hc. lia. }
      assert (Ascii.eqb c "+" = false) as ->.
      { apply Ascii.eqb_neq. intros ->. change (byte "+") with 43 in Hc. lia. }
      rewrite (ParseUint_loop_digits _ _ _ H3) by (change (2 ^ 64) with 18446744073709551616; lia).
      change (2 ^ 63) with 9223372036854775808.
      destruct (9223372036854775808 <=? i) eqn:E1; [lia|]. done.
Qed.

(** Anything else of that length is taken for 0. *)
Lemma Atoi_syntax s :
  (String.length s < 19)%nat → is_decimal s = false →
  Atoi s = (0, Some ErrSyntax).
Proof.
  intros L H. unfold Atoi. destruct s as [|c r]; [done|].
  assert ((0 <? String.length (String c r))%nat && (String.length (String c r) <? 19)%nat = true) as ->.
  { apply andb_true_iff. split; [done|]. by apply Nat.ltb_lt. }
  unfold is_decimal in H.
  destruct (Ascii.eqb c "-" || Ascii.eqb c "+") eqn:S.
  - destruct r as [|d r]; [done|].
    change (negb (String.eqb (String d r) "") && all_digits (String d r))
      with (all_digits (String d r)) in H.
    change ((String.length (String d r) <? 1)%nat) with false.
    simpl andb. cbv iota.
    apply (parse_digits_all_digits _ 0) in H. by rewrite H.
  - simpl andb. cbv iota.
    apply (parse_digits_all_digits _ 0) in H. by rewrite H.
Qed.

Lemma all_digits_no_space s : all_digits s = true → no_space s = true.
Proof.
  induction s as [|c s IH]; simpl; [done|]. intros H.
  apply andb_true_iff in H as [Hc H]. rewrite (IH H), andb_true_r.
  apply negb_true_iff, Ascii.eqb_neq. intros ->. done.
Qed.

Lemma Itoa_no_space i : no_space (Itoa i) = true.
Proof.
  unfold Itoa. destruct (i <? 0) eqn:E.
  - apply Z.ltb_lt in E.
    destruct (utoa_spec (- i) ltac:(lia)) as (c & ds & -> & H2 & _).
    change (no_space (String "-" (String c ds))) with (no_space (String c ds)).
    by apply all_digits_no_space.
  - apply Z.ltb_ge in E.
    destruct (utoa_spec i ltac:(lia)) as (c & ds & -> & H2 & _).
    by apply all_digits_no_space.
Qed.

(** *** A node sends messages of its own only *)

Lemma follows_refl st : follows st st.
Proof.
  repeat split. exists []. rewrite app_nil_r. split; [done|constructor].
Qed.

Lemma follows_trans a b c : follows a b → follows b c → follows a c.
Proof.
  intros (I1 & M1 & e1 & T1 & S1) (I2 & M2 & e2 & T2 & S2).
  repeat split; [congruence..|].
  exists (e1 ++ e2). rewrite T2, T1, app_assoc. split; [done|].
  unfold sends_own in *. rewrite writes_app, Forall_app. split; [done|].
  by rewrite <- I1, <- M1.
Qed.

Lemma follows_emit e st :
  writes [e] = [] → follows st (emit e st).
Proof.
  intros H. repeat split. exists [e]. split; [done|].
  unfold sends_own. rewrite H. constructor.
Qed.

Lemma follows_Println s st : follows st (Println s st).
Proof. by apply follows_emit. Qed.

Lemma follows_sendMessage id msg st :
  own_message (ID (node st)) (IsMaster (node st)) msg →
  follows st (sendMessage id msg st).
Proof.
  intros Hm. unfold follows. rewrite node_sendMessage. repeat split.
  unfold sendMessage. destruct (lookup_conn id (node st)) as [c|].
  - unfold Write. destruct (conns st !! c) as [cs|]; [destruct (broken cs)|]; simpl.
    + eexists [_; _]. rewrite <- app_assoc. split; [done|].
      constructor; [by exists msg | constructor].
    + eexists [_]. split; [done|]. constructor; [by exists msg | constructor].
    + eexists [_; _]. rewrite <- app_assoc. split; [done|].
      constructor; [by exists msg | constructor].
  - eexists [_]. split; [done|]. constructor.
Qed.

Lemma follows_dispatch m st : follows st (dispatch m st).
Proof.
  unfold dispatch. cbv zeta.
  destruct (String.eqb (Type_ m) "heartbeat").
  { destruct (negb (IsMaster (node st))); [by apply follows_emit | apply follows_refl]. }
  destruct (String.eqb (Type_ m) "task"); cycle 1.
  { destruct (String.eqb (Type_ m) "result"); [by apply follows_emit | apply follows_refl]. }
  eapply follows_trans; [|apply follows_sendMessage].
  - eapply follows_trans; [|by apply follows_emit]. by apply follows_emit.
  - simpl. split; [done|]. right. left. eauto.
Qed.

Lemma follows_handle_loop fuel : ∀ input st, follows st (handle_loop fuel input st).
Proof.
  induction fuel as [|fuel IH]; intros input st; simpl; [apply follows_refl|].
  destruct (decode input) as [e|[m rest]]; [apply follows_refl|].
  eapply follows_trans; [apply follows_dispatch | apply IH].
Qed.

Lemma follows_tick order : ∀ st,
  IsMaster (node st) = true → follows st (sendHeartbeats_tick order st).
Proof.
  unfold sendHeartbeats_tick.
  induction order as [|id order IH]; intros st Hm; simpl; [apply follows_refl|].
  eapply follows_trans; [|apply IH; by rewrite node_sendMessage].
  apply follows_sendMessage. split; [done|]. right. right. done.
Qed.

Lemma follows_state n cs l t st :
  ID n = ID (node st) → IsMaster n = IsMaster (node st) → t = trace st →
  follows st (mkState n cs l t).
Proof.
  intros H1 H2 ->. repeat split; [done..|]. exists []. simpl.
  rewrite app_nil_r. split; [done|constructor].
Qed.

Lemma follows_exec_accept input st : follows st (exec (OpAccept input) st).
Proof.
  simpl. eapply follows_trans; [|apply follows_handle_loop].
  by apply follows_state.
Qed.

Lemma follows_exec_tick order st : follows st (exec (OpTick order) st).
Proof.
  simpl. destruct (IsMaster (node st)) eqn:E; [by apply follows_tick | apply follows_refl].
Qed.

Lemma follows_connectToPeer id address st :
  follows st (connectToPeer id address st).2.
Proof.
  unfold connectToPeer, Dial. case_decide; simpl; [|apply follows_refl].
  by apply follows_state.
Qed.

Lemma follows_print_peers order : ∀ st, follows st (print_peers order st).
Proof.
  unfold print_peers.
  induction order as [|id order IH]; intros st; simpl; [apply follows_refl|].
  eapply follows_trans; [|apply IH].
  destruct (Peers (node st) !! id); [by apply follows_emit | apply follows_refl].
Qed.

Lemma follows_command Error order cmd st :
  follows st (command Error order cmd st).2.
Proof.
  unfold command. destruct (Split cmd) as [|p0 args]; [apply follows_refl|].
  destruct (String.eqb p0 "connect").
  { destruct args as [|w [|address [|]]]; try apply follows_Println.
    pose proof (follows_connectToPeer (Atoi w).1 address st) as H.
    destruct (connectToPeer (Atoi w).1 address st) as [[err|] st']; simpl in *;
      (eapply follows_trans; [exact H | by apply follows_emit]). }
  destruct (String.eqb p0 "send").
  { destruct args as [|w [|w1 ws]]; try apply follows_Println.
    apply follows_sendMessage. split; [done|]. by left. }
  destruct (String.eqb p0 "list").
  { eapply follows_trans; [apply follows_Println | apply follows_print_peers]. }
  destruct (String.eqb p0 "exit"); [apply follows_refl|].
  destruct (String.eqb p0 "help"); [|apply follows_Println].
  simpl. repeat (eapply follows_trans; [|apply follows_Println]). apply follows_refl.
Qed.

Lemma follows_iteration Error order stdin st :
  follows st (iteration Error order stdin st).2.
Proof.
  unfold iteration. destruct (ReadString stdin) as [line rest].
  pose proof (follows_command Error order (TrimSpace line) (emit (prompt (node st)) st)) as H.
  destruct (command Error order (TrimSpace line) (emit (prompt (node st)) st)) as [r st2].
  simpl in *. eapply follows_trans; [|exact H]. by apply follows_emit.
Qed.

(** The events of a served process come after those of its start. *)
Lemma serve_sends_own Error steps : ∀ stdin st,
  ∃ evs, events (serve Error steps stdin st) = trace st ++ evs
         ∧ sends_own (ID (node st)) (IsMaster (node st)) evs.
Proof.
  assert (G : ∀ st st' (o : Outcome),
    follows st st' →
    (∃ evs, events o = trace st' ++ evs
            ∧ sends_own (ID (node st')) (IsMaster (node st')) evs) →
    ∃ evs, events o = trace st ++ evs
           ∧ sends_own (ID (node st)) (IsMaster (node st)) evs).
  { intros st st' o (I & M & e1 & T & S) (e2 & T2 & S2).
    exists (e1 ++ e2). rewrite T2, T, app_assoc. split; [done|].
    unfold sends_own in *. rewrite writes_app, Forall_app. split; [done|].
    by rewrite <- I, <- M. }
  induction steps as [|s steps IH]; intros stdin st.
  - exists []. simpl. rewrite app_nil_r. split; [done|constructor].
  - destruct s as [order|input|err|order]; simpl.
    + pose proof (follows_iteration Error order stdin st) as H.
      destruct (iteration Error order stdin st) as [[r rest] st']. simpl in H.
      destruct r.
      * destruct H as (_ & _ & evs & T & S). by exists evs.
      * eapply G; [exact H | apply IH].
    + eapply G; [apply (follows_exec_accept input) | apply IH].
    + eapply G; [|apply IH]. by apply follows_emit.
    + eapply G; [apply (follows_exec_tick order) | apply IH].
Qed.

(** *** One pass of the command loop *)

Lemma iteration_returned Error order stdin st :
  (iteration Error order stdin st).1.1 = true
  ↔ first_word (ReadString stdin).1 = "exit".
Proof.
  unfold iteration, first_word. destruct (ReadString stdin) as [line rest]. simpl.
  unfold command.
  destruct (Split_cons (TrimSpace line)) as (p0 & args & ->). simpl hd.
  destruct (String.eqb p0 "connect") eqn:E1.
  { apply String.eqb_eq in E1. subst.
    split; [|done].
    destruct args as [|w [|address [|]]]; try done.
    destruct (connectToPeer (Atoi w).1 address (emit (prompt (node st)) st)) as [[err|] st'];
      done. }
  destruct (String.eqb p0 "send") eqn:E2.
  { apply String.eqb_eq in E2. subst. split; [|done].
    destruct args as [|w [|w1 ws]]; done. }
  destruct (String.eqb p0 "list") eqn:E3.
  { apply String.eqb_eq in E3. subst. done. }
  destruct (String.eqb p0 "exit") eqn:E4.
  { apply String.eqb_eq in E4. subst. done. }
  apply String.eqb_neq in E4.
  destruct (String.eqb p0 "help"); done.
Qed.

Lemma lines_ReadString stdin l ls :
  lines stdin = l :: ls →
  ∃ rest, ReadString stdin = (l, rest) ∧ lines rest = ls.
Proof.
  destruct stdin as [|c s]; [done|]. rewrite ReadString_lines.
  destruct (ReadString (String c s)) as [l' rest]. simpl.
  intros H. injection H as -> <-. eauto.
Qed.

Lemma new_events_app st st' evs :
  trace st' = trace st ++ evs → new_events st st' = evs.
Proof. intros H. unfold new_events. by rewrite H, drop_app_length. Qed.

Lemma print_peers_spec order : ∀ st,
  node (print_peers order st) = node st
  ∧ conns (print_peers order st) = conns st
  ∧ listening (print_peers order st) = listening st
  ∧ trace (print_peers order st)
    = trace st ++ (peer_line <$> listed (node st) order).
Proof.
  unfold print_peers, listed.
  induction order as [|id order IH]; intros st; cbn [fold_left omap list_omap].
  - simpl. by rewrite app_nil_r.
  - destruct (Peers (node st) !! id) as [addr|] eqn:E.
    + destruct (IH (emit (Stdout ("Node " +:+ Itoa id +:+ ": " +:+ addr +:+ String newline "")) st))
        as (H1 & H2 & H3 & H4).
      rewrite H1, H2, H3, H4. simpl. rewrite <- app_assoc. done.
    + apply IH.
Qed.

Lemma writes_peer_lines l : writes (peer_line <$> l) = [].
Proof. induction l as [|x l IH]; simpl; done. Qed.

Lemma sendMessage_trace id msg st :
  ∃ evs, trace (sendMessage id msg st) = trace st ++ evs
         ∧ (writes evs = []
            ∨ ∃ c, lookup_conn id (node st) = Some c ∧ writes evs = [(c, encode msg)]).
Proof.
  unfold sendMessage. destruct (lookup_conn id (node st)) as [c|] eqn:E.
  - unfold Write. destruct (conns st !! c) as [cs|]; [destruct (broken cs)|]; simpl.
    + eexists [_; _]. rewrite <- app_assoc. split; [done|]. right. eauto.
    + eexists [_]. split; [done|]. right. eauto.
    + eexists [_; _]. rewrite <- app_assoc. split; [done|]. right. eauto.
  - eexists [_]. split; [done|]. by left.
Qed.

Lemma quiet_refl st : quiet st st.
Proof. repeat split. exists []. by rewrite app_nil_r. Qed.

Lemma quiet_emit e st st' : writes [e] = [] → quiet st st' → quiet st (emit e st').
Proof.
  intros He (H1 & H2 & H3 & evs & H4 & H5). repeat split; try done.
  exists (evs ++ [e]). simpl. rewrite H4, <- app_assoc, writes_app, H5, He. done.
Qed.

Lemma quiet_Println s st st' : quiet st st' → quiet st (Println s st').
Proof. by apply quiet_emit. Qed.

Lemma quiet_print_peers order st st' : quiet st st' → quiet st (print_peers order st').
Proof.
  intros (H1 & H2 & H3 & evs & H4 & H5).
  destruct (print_peers_spec order st') as (P1 & P2 & P3 & P4).
  repeat split; try congruence.
  eexists. rewrite P4, H4, <- app_assoc. split; [done|].
  rewrite writes_app, H5. simpl. apply writes_peer_lines.
Qed.

(** The three ways of a command: it prints at most; it connects; it
    sends. *)
Lemma command_cases Error order cmd st :
  let st' := (command Error order cmd st).2 in
  quiet st st'
  ∨ (∃ w address,
       Split cmd = ["connect"; w; address] ∧ address ∈ listening st
       ∧ listening st' = listening st
       ∧ node st' = register (Atoi w).1 address (fresh_conn (conns st)) (node st)
       ∧ ∃ evs, trace st' = trace st ++ evs ∧ writes evs = [])
  ∨ (∃ w word words,
       Split cmd = "send" :: w :: word :: words
       ∧ st' = sendMessage (Atoi w).1
                 (mkMessage "task" (Join (word :: words)) (ID (node st))) st).
Proof.
  intros st'. unfold st', command.
  destruct (Split cmd) as [|p0 args]; [left; apply quiet_refl|].
  destruct (String.eqb p0 "connect") eqn:E1.
  { apply String.eqb_eq in E1. subst.
    destruct args as [|w [|address [|]]];
      try (left; apply quiet_Println, quiet_refl).
    unfold connectToPeer, Dial.
    destruct (decide (address ∈ listening st)) as [Hin|Hin].
    - right. left. exists w, address. repeat split; try done.
      eexists [_]. done.
    - left. apply quiet_emit; [done|apply quiet_refl]. }
  destruct (String.eqb p0 "send") eqn:E2.
  { apply String.eqb_eq in E2. subst.
    destruct args as [|w [|w1 ws]]; try (left; apply quiet_Println, quiet_refl).
    right. right. by exists w, w1, ws. }
  left.
  destruct (String.eqb p0 "list"); [apply quiet_print_peers, quiet_Println, quiet_refl|].
  destruct (String.eqb p0 "exit"); [apply quiet_refl|].
  destruct (String.eqb p0 "help"); [|apply quiet_Println, quiet_refl].
  repeat apply quiet_Println. apply quiet_refl.
Qed.

Lemma listening_sendMessage id msg st : listening (sendMessage id msg st) = listening st.
Proof.
  unfold sendMessage. destruct (lookup_conn _ _) as [c|]; [|done].
  unfold Write. destruct (conns st !! c) as [cs|]; [destruct (broken cs)|]; done.
Qed.

Lemma elem_of_listed n order id a :
  (id, a) ∈ listed n order ↔ id ∈ order ∧ Peers n !! id = Some a.
Proof.
  unfold listed. rewrite list_elem_of_omap. split.
  - intros (x & Hx & H). destruct (Peers n !! x) as [a'|] eqn:E; [|done].
    simpl in H. injection H as <- <-. done.
  - intros [H1 H2]. exists id. rewrite H2. done.
Qed.

Lemma NoDup_listed n order : NoDup order → NoDup (listed n order).
Proof.
  unfold listed. induction 1 as [|id order Hid Hnd IH]; cbn [omap list_omap]; [constructor|].
  destruct (Peers n !! id) as [a|] eqn:E; simpl; [|done].
  constructor; [|done]. intros H. apply elem_of_listed in H as [H _]. done.
Qed.

(** The peers visited in a range order are the entries of the map. *)
Lemma listed_range_order n order :
  range_order (Peers n) order → listed n order ≡ₚ map_to_list (Peers n).
Proof.
  intros [Hnd Hin]. apply NoDup_Permutation.
  - by apply NoDup_listed.
  - apply NoDup_map_to_list.
  - intros [id a]. rewrite elem_of_listed, elem_of_map_to_list, Hin.
    split; [by intros [_ ?]|]. intros H. split; [by eexists|done].
Qed.

(** *** The command loop *)

Lemma startCLI_cons Error order orders stdin st :
  startCLI Error (order :: orders) stdin st
  = let '(returned, rest, st') := iteration Error order stdin st in
    if returned then (true, rest, st') else startCLI Error orders rest st'.
Proof. done. Qed.

Lemma iteration_rest Error order stdin st :
  (iteration Error order stdin st).1.2 = (ReadString stdin).2.
Proof.
  unfold iteration. destruct (ReadString stdin) as [line rest].
  destruct (command _ _ _ _). done.
Qed.

Lemma Forall_lines_rest (P : string → Prop) stdin :
  Forall P (lines stdin) → Forall P (lines (ReadString stdin).2).
Proof.
  destruct stdin as [|c s]; [done|]. rewrite ReadString_lines.
  by inversion 1.
Qed.

Lemma Forall_lines_first (P : string → Prop) stdin :
  P "" → Forall P (lines stdin) → P (ReadString stdin).1.
Proof.
  intros H0. destruct stdin as [|c s]; [done|]. rewrite ReadString_lines.
  by inversion 1.
Qed.

Lemma startCLI_app Error o1 : ∀ o2 stdin st,
  startCLI Error (o1 ++ o2) stdin st
  = let '(returned, rest, st') := startCLI Error o1 stdin st in
    if returned then (true, rest, st') else startCLI Error o2 rest st'.
Proof.
  induction o1 as [|order o1 IH]; intros o2 stdin st; [done|].
  change ((order :: o1) ++ o2) with (order :: (o1 ++ o2)).
  rewrite !startCLI_cons.
  destruct (iteration Error order stdin st) as [[r rest] st'].
  destruct r; [done|]. apply IH.
Qed.

(** At the end of the input a pass prints the prompt and the line for
    an unknown command. *)
Lemma iteration_eof Error order st :
  iteration Error order "" st
  = (false, "", emit unknown_command (emit (prompt (node st)) st)).
Proof. done. Qed.

Lemma startCLI_eof Error orders : ∀ st,
  startCLI Error orders "" st
  = (false, "",
     mkState (node st) (conns st) (listening st)
       (trace st ++ mjoin (replicate (length orders) [prompt (node st); unknown_command]))).
Proof.
  induction orders as [|order orders IH]; intros st.
  - simpl. rewrite app_nil_r. by destruct st.
  - rewrite startCLI_cons, iteration_eof, IH. simpl. rewrite <- !app_assoc. done.
Qed.

(** As long as no line begins with [exit], the loop goes on, a line
    at a pass. *)
Lemma startCLI_without_exit Error orders : ∀ stdin st,
  Forall (fun x => first_word x ≠ "exit") (lines stdin) →
  (startCLI Error orders stdin st).1.1 = false
  ∧ lines (startCLI Error orders stdin st).1.2 = drop (length orders) (lines stdin).
Proof.
  induction orders as [|order orders IH]; intros stdin st HF; [done|].
  rewrite startCLI_cons.
  pose proof (iteration_returned Error order stdin st) as [R _].
  pose proof (iteration_rest Error order stdin st) as R2.
  destruct (iteration Error order stdin st) as [[r rest] st']. simpl in R, R2. subst rest.
  destruct r.
  - specialize (R eq_refl).
    by apply (Forall_lines_first (fun x => first_word x ≠ "exit")) in HF.
  - destruct (IH (ReadString stdin).2 st') as [I1 I2]; [by apply Forall_lines_rest|].
    split; [done|]. rewrite I2.
    destruct stdin as [|c s]; [simpl; by rewrite drop_nil|].
    rewrite (ReadString_lines c s). done.
Qed.

Lemma lines_nil s : lines s = [] → s = "".
Proof.
  destruct s as [|c s]; [done|]. simpl.
  destruct (Ascii.eqb c newline); [done|]. destruct (lines s); done.
Qed.

Lemma serve_exit Error steps : ∀ stdin st code out,
  serve Error steps stdin st = Exit code out →
  code = 0 ∧ Exists (fun l => first_word l = "exit") (lines stdin).
Proof.
  induction steps as [|s steps IH]; intros stdin st code out H; [done|].
  destruct s as [order|input|err|order]; simpl in H; try (by eapply IH).
  pose proof (iteration_returned Error order stdin st) as [R _].
  pose proof (iteration_rest Error order stdin st) as R2.
  destruct (iteration Error order stdin st) as [[r rest] st']. simpl in R, R2. subst rest.
  destruct stdin as [|c s].
  { destruct r; [by specialize (R eq_refl)|].
    apply IH in H as [_ H]. simpl in H. by apply Exists_nil in H. }
  rewrite ReadString_lines. destruct r.
  - injection H as <- <-. split; [done|]. left. by apply R.
  - apply IH in H as [-> H]. split; [done|]. by right.
Qed.

(** *** From node to node *)

Lemma ValidString_ascii c s : byte c < 0x80 → ValidString (String c s) = ValidString s.
Proof.
  intros H. unfold ValidString. simpl String.length.
  change (valid_loop (S (String.length s)) (String c s))
    with (let '(r, size) := DecodeRuneInString (String c s) in
          if (r =? RuneError) && (size =? 1)%nat then false
          else valid_loop (String.length s) (str_drop size (String c s))).
  rewrite decode_ascii by done.
  pose proof (byte_range c). unfold RuneError.
  destruct (byte c =? 65533) eqn:E; [lia|]. done.
Qed.

Lemma ValidString_Processed c :
  ValidString c = true → ValidString ("Processed: " +:+ c) = true.
Proof.
  intros H. simpl append.
  rewrite !ValidString_ascii by (vm_compute; done). done.
Qed.

(** A receive loop on a connection that carries one message. *)
Lemma accept_one m st :
  valid_Message m →
  exec (OpAccept (encode m)) st = dispatch m (Accept (encode m) st).2.
Proof.
  intros Hm. simpl. unfold handleConnection, inbound_of. simpl conns.
  rewrite lookup_insert_eq. simpl inbound.
  destruct (decodes_encode_all [m]) as (rest & Hd & He); [by constructor|].
  simpl encode_all in Hd. rewrite append_nil_r in Hd.
  rewrite (handle_input_decodes _ _ _ _ _ Hd He). done.
Qed.

Lemma sendMessage_live id msg st c cs :
  lookup_conn id (node st) = Some c → conns st !! c = Some cs → broken cs = None →
  trace (sendMessage id msg st) = trace st ++ [ConnWrite c (encode msg) None].
Proof.
  intros H1 H2 H3. unfold sendMessage, Write. rewrite H1, H2, H3. done.
Qed.

Lemma tick_writes_heartbeat order : ∀ st,
  ∃ evs, trace (sendHeartbeats_tick order st) = trace st ++ evs
         ∧ Forall (fun w => w.2 = encode (mkMessage "heartbeat" "" (ID (node st))))
                  (writes evs).
Proof.
  unfold sendHeartbeats_tick.
  induction order as [|id order IH]; intros st; simpl.
  - exists []. rewrite app_nil_r. split; [done|constructor].
  - destruct (sendMessage_trace id (mkMessage "heartbeat" "" (ID (node st))) st)
      as (e1 & T1 & W1).
    destruct (IH (sendMessage id (mkMessage "heartbeat" "" (ID (node st))) st))
      as (e2 & T2 & W2).
    exists (e1 ++ e2). rewrite T2, T1, app_assoc. split; [done|].
    rewrite writes_app, Forall_app. rewrite node_sendMessage in W2. split; [|done].
    destruct W1 as [->|(c & _ & ->)]; repeat constructor.
Qed.

(** A [send] command: the words behind the second one, joined again,
    are the content. *)
Lemma command_send Error order target content st :
  is_int target →
  command Error order ("send " +:+ Itoa target +:+ String space content) st
  = (false, sendMessage target (mkMessage "task" content (ID (node st))) st).
Proof.
  intros Hi. unfold command.
  change ("send " +:+ Itoa target +:+ String space content)
    with ("send" +:+ String space (Itoa target +:+ String space content)).
  rewrite Split_word by done. rewrite Split_word by apply Itoa_no_space.
  destruct (Split_cons content) as (w1 & ws & Hs). rewrite Hs.
  change (String.eqb "send" "connect") with false.
  change (String.eqb "send" "send") with true. cbv iota beta zeta.
  rewrite Atoi_Itoa by done. rewrite <- Hs, Join_Split. done.
Qed.

End CommandLineFacts.


(** * The properties of the specification *)

(** C1 (as the code has it). A task from f is answered through the
    connection the node has registered for f: when there is one and its
    write succeeds, handling the task prints, sleeps for the processing
    delay and then writes exactly one message, the encoded reply of type
    "result" with content "Processed: " + c and the node's identifier, to
    that connection. *)
Theorem task_reply_over_registry
    (st : State) (m : Message) (c : Conn) (cs : ConnState) :
  Type_ m = "task" →
  lookup_conn (From m) (node st) = Some c →
  conns st !! c = Some cs →
  broken cs = None →
  let reply := mkMessage "result" ("Processed: " +:+ Content m) (ID (node st)) in
  let st' := dispatch m st in
  trace st' = trace st ++ [task_banner m; Sleep Second;
                           ConnWrite c (encode reply) None]
  ∧ writes (new_events st st') = [(c, encode reply)]
  ∧ conns st'
    = <[c := mkConnState (inbound cs) (outbound cs +:+ encode reply) None]> (conns st)
  ∧ node st' = node st.
Proof.
  intros Ht Hl Hc Hb reply st'.
  assert (trace st' = trace st ++ [task_banner m; Sleep Second;
                                   ConnWrite c (encode reply) None]
          ∧ conns st'
            = <[c := mkConnState (inbound cs) (outbound cs +:+ encode reply) None]>
                (conns st)) as [H1 H2].
  { unfold st', dispatch, sendMessage, Write. rewrite Ht. simpl.
    rewrite Hl. simpl. rewrite Hc, Hb. simpl. rewrite <- !app_assoc. done. }
  repeat split; try done.
  - unfold new_events. rewrite H1, drop_app_length. done.
  - apply node_dispatch.
Qed.

Lemma task_reply_over_registry_witness :
  let st := snd (connectToPeer 2 "127.0.0.1:9002" (init 1 false {["127.0.0.1:9002"]})) in
  let m := mkMessage "task" "hello" 2 in
  let cs := mkConnState "" "" None in
  let reply := mkMessage "result" ("Processed: " +:+ Content m) (ID (node st)) in
  let st' := dispatch m st in
  trace st' = trace st ++ [task_banner m; Sleep Second;
                           ConnWrite 0%nat (encode reply) None]
  ∧ writes (new_events st st') = [(0%nat, encode reply)]
  ∧ conns st'
    = <[0%nat := mkConnState (inbound cs) (outbound cs +:+ encode reply) None]> (conns st)
  ∧ node st' = node st.
Proof.
  intros st m cs reply st'.
  refine (task_reply_over_registry st m 0%nat cs _ _ _ _); vm_compute; reflexivity.
Defined.

(** C1 as stated fails: a task from node 7 arrives on a live accepted
    connection of a node that has registered no connection for 7; the
    node writes no reply at all. *)
Lemma task_reply_counterexample :
  let m := mkMessage "task" "hello" 7 in
  ¬ answers_task (snd (Accept (encode m) (init 1 false ∅))) m.
Proof. intros m [c H]. vm_compute in H. discriminate H. Qed.

(** C2 (as the code has it). A message whose type and content are valid
    UTF-8, with an identifier in the range of [int], is decoded from its
    encoding as it was, whatever follows it in the stream. *)
Theorem decode_encode_valid_utf8 (m : Message) (rest : string) :
  Utf8.ValidString (Type_ m) = true →
  Utf8.ValidString (Content m) = true →
  is_int (From m) →
  decode (encode m +:+ rest) = inr (m, String newline rest)
  ∧ decoded (encode m) = Some m.
Proof.
  intros Ht Hc Hi. split.
  - by apply CodecFacts.decode_encode.
  - unfold decoded. rewrite <- (append_nil_r (encode m)).
    rewrite CodecFacts.decode_encode by done. done.
Qed.

Lemma decode_encode_valid_utf8_witness :
  let m := mkMessage "task" "hello" (-42) in
  decode (encode m +:+ "tail") = inr (m, String newline "tail")
  ∧ decoded (encode m) = Some m.
Proof.
  apply (decode_encode_valid_utf8 (mkMessage "task" "hello" (-42)) "tail").
  - vm_compute. reflexivity.
  - vm_compute. reflexivity.
  - unfold is_int. split; [apply Z.leb_le | apply Z.ltb_lt]; reflexivity.
Defined.

(** C2 as stated fails: a content byte that is no valid UTF-8 is written
    as the escape of U+FFFD and comes back as the three bytes of U+FFFD. *)
Lemma decode_encode_counterexample :
  let m := mkMessage "task" (String (chr 0xFF) "") 1 in
  decoded (encode m)
  = Some (mkMessage "task" (String (chr 0xEF) (String (chr 0xBF) (String (chr 0xBD) ""))) 1)
  ∧ decoded (encode m) ≠ Some m.
Proof. split; [vm_compute; reflexivity | vm_compute; discriminate]. Qed.



(** C4. After [register id a c], [lookup id] returns [(c, true)]; and an
    identifier that no [connect] of the run named is not found. *)
Theorem registry_register_lookup
    (n : Node) (id : Z) (a : string) (c : Conn)
    (i : Z) (master : bool) (addrs : gset string) (ops : list Op) (id' : Z) :
  (∀ address, OpConnect id' address ∉ ops) →
  lookup_conn id (register id a c n) = Some c
  ∧ lookup_conn id' (node (run ops (init i master addrs))) = None.
Proof.
  intros Hnever. split.
  - unfold lookup_conn, register. simpl. apply lookup_insert_eq.
  - unfold lookup_conn. induction ops as [|op ops IH] using rev_ind; [done|].
    rewrite run_snoc, conn_exec_other.
    + apply IH. intros address Hin. apply (Hnever address).
      apply elem_of_app. by left.
    + intros address ->. apply (Hnever address). apply elem_of_app. right. by left.
Qed.

Lemma registry_register_lookup_witness :
  lookup_conn 2 (register 2 "127.0.0.1:9002" 0%nat (NewNode 1 true)) = Some 0%nat
  ∧ lookup_conn 3
      (node (run [OpConnect 2 "127.0.0.1:9002"; OpSend 2 (mkMessage "task" "hello" 1)]
                 (init 1 true {["127.0.0.1:9002"]}))) = None.
Proof.
  apply registry_register_lookup.
  intros address Hin.
  apply elem_of_cons in Hin as [Hin|Hin]; [discriminate Hin|].
  apply elem_of_cons in Hin as [Hin|Hin]; [discriminate Hin|].
  by apply elem_of_nil in Hin.
Defined.

(** C5. After any sequence of registrations an identifier has one
    address and one connection: registering it (again) leaves exactly the
    new address and the new handle under it, lists it once, changes no
    other identifier, and adds no entry when it was there already. *)
Theorem registry_overwrite
    (i : Z) (master : bool) (regs : list (Z * string * Conn))
    (id : Z) (a : string) (c : Conn) :
  let n := registers regs (NewNode i master) in
  let n' := register id a c n in
  NoDup (list_peers n').*1
  ∧ (∀ a', (id, a') ∈ list_peers n' ↔ a' = a)
  ∧ (∀ c', lookup_conn id n' = Some c' ↔ c' = c)
  ∧ (∀ j, j ≠ id → Peers n' !! j = Peers n !! j ∧ conn n' !! j = conn n !! j)
  ∧ (is_Some (Peers n !! id) → size (Peers n') = size (Peers n))
  ∧ (is_Some (conn n !! id) → size (conn n') = size (conn n)).
Proof.
  intros n n'. unfold n', list_peers, lookup_conn, register. simpl.
  repeat split.
  - apply NoDup_fst_map_to_list.
  - rewrite elem_of_map_to_list, lookup_insert_eq. congruence.
  - intros ->. apply elem_of_map_to_list, lookup_insert_eq.
  - rewrite lookup_insert_eq. congruence.
  - intros ->. apply lookup_insert_eq.
  - by apply lookup_insert_ne.
  - by apply lookup_insert_ne.
  - intros [x Hx]. rewrite map_size_insert, Hx. done.
  - intros [x Hx]. rewrite map_size_insert, Hx. done.
Qed.

(** C6. For a target with no registered connection [sendMessage] logs
    the error and does nothing else: the connections (and so the bytes
    written to them) and the registry are as before, and the only new
    event is the log line. *)
Theorem send_without_connection (targetID : Z) (msg : Message) (st : State) :
  lookup_conn targetID (node st) = None →
  let st' := sendMessage targetID msg st in
  trace st' = trace st ++ [LogLine ("No connection to node " +:+ Strconv.Itoa targetID)]
  ∧ writes (new_events st st') = []
  ∧ conns st' = conns st
  ∧ node st' = node st
  ∧ listening st' = listening st.
Proof.
  intros H st'. unfold st', sendMessage, new_events. rewrite H. simpl.
  rewrite drop_app_length. done.
Qed.

Lemma send_without_connection_witness :
  let st := init 1 false ∅ in
  let st' := sendMessage 7 (mkMessage "task" "hello" 1) st in
  trace st' = trace st ++ [LogLine ("No connection to node " +:+ Strconv.Itoa 7)]
  ∧ writes (new_events st st') = []
  ∧ conns st' = conns st
  ∧ node st' = node st
  ∧ listening st' = listening st.
Proof. apply send_without_connection. reflexivity. Defined.

(** C7. [connectToPeer] hands the dial error back and leaves the whole
    state, the registry with it, as it was when the dial fails; when the
    dial succeeds it returns [nil] and registers the address and the new
    connection under [id] together. *)
Theorem connectToPeer_outcome (id : Z) (address : string) (st : State) :
  let err := fst (connectToPeer id address st) in
  let st' := snd (connectToPeer id address st) in
  if decide (address ∈ listening st) then
    err = None
    ∧ ∃ c, conns st !! c = None
           ∧ node st' = register id address c (node st)
           ∧ Peers (node st') !! id = Some address
           ∧ lookup_conn id (node st') = Some c
           ∧ conns st' !! c = Some (mkConnState "" "" None)
  else
    err = Some (DialError address) ∧ st' = st.
Proof.
  unfold connectToPeer, Dial. case_decide; simpl; [|done].
  split; [done|]. exists (fresh_conn (conns st)). repeat split.
  - apply not_elem_of_dom. unfold fresh_conn. apply is_fresh.
  - apply lookup_insert_eq.
  - unfold lookup_conn. simpl. apply lookup_insert_eq.
  - apply lookup_insert_eq.
Qed.

(** C8. On every input the receive loop returns at the first failed
    [Decode]: there is such a failure, after finitely many messages, and
    the loop has handled exactly the messages decoded before it, in
    order, and nothing of the input behind it. *)
Theorem handler_stops_at_first_failure (c : Conn) (st : State) :
  (∃ ms rest e, decodes (inbound_of st c) ms rest ∧ decode rest = inl e)
  ∧ (∀ ms rest e,
       decodes (inbound_of st c) ms rest →
       decode rest = inl e →
       handleConnection c st = fold_left (fun st m => dispatch m st) ms st).
Proof.
  split.
  - apply decodes_until_failure.
  - intros ms rest e Hd He. unfold handleConnection.
    by eapply handle_input_decodes.
Qed.

Lemma handler_stops_at_first_failure_witness :
  let good := mkMessage "result" "done" 7 in
  let input := encode good +:+ "x" +:+ encode (mkMessage "task" "hello" 7) in
  let st := snd (Accept input (init 1 false ∅)) in
  handleConnection 0%nat st = fold_left (fun st m => dispatch m st) [good] st.
Proof.
  intros good input st.
  refine (proj2 (handler_stops_at_first_failure 0%nat st) [good]
            (String newline ("x" +:+ encode (mkMessage "task" "hello" 7)))
            ErrMalformed _ _).
  - eapply decodes_cons; [vm_compute; reflexivity | apply decodes_nil].
  - vm_compute. reflexivity.
Defined.

(** C9. The reply to a task goes through the registry entry of the
    sender, never over the connection the task came in on: when the node
    has no connection registered for the sender, handling the task
    prints, sleeps and logs the failed lookup, writes to no connection
    (the connections are as before) and the receive loop goes on with the
    rest of the input. *)
Theorem task_without_connection
    (c : Conn) (st : State) (m : Message) (rest : string) :
  decode (inbound_of st c) = inr (m, rest) →
  Type_ m = "task" →
  lookup_conn (From m) (node st) = None →
  let st1 := dispatch m st in
  trace st1 = trace st ++ [task_banner m; Sleep Second;
                           LogLine ("No connection to node " +:+ Strconv.Itoa (From m))]
  ∧ writes (new_events st st1) = []
  ∧ conns st1 = conns st
  ∧ handleConnection c st = handle_input rest st1.
Proof.
  intros Hd Ht Hl st1.
  assert (trace st1 = trace st ++ [task_banner m; Sleep Second;
            LogLine ("No connection to node " +:+ Strconv.Itoa (From m))]
          ∧ conns st1 = conns st) as [H1 H2].
  { unfold st1, dispatch, sendMessage. rewrite Ht. simpl. rewrite Hl. simpl.
    rewrite <- !app_assoc. done. }
  repeat split; try done.
  - unfold new_events. rewrite H1, drop_app_length. done.
  - unfold handleConnection. by apply handle_input_step.
Qed.

Lemma task_without_connection_witness :
  let input := encode (mkMessage "task" "hello" 7)
               +:+ encode (mkMessage "result" "done" 7) in
  let st := snd (Accept input (init 1 false ∅)) in
  let m := mkMessage "task" "hello" 7 in
  let st1 := dispatch m st in
  trace st1 = trace st ++ [task_banner m; Sleep Second;
                           LogLine ("No connection to node " +:+ Strconv.Itoa (From m))]
  ∧ writes (new_events st st1) = []
  ∧ conns st1 = conns st
  ∧ handleConnection 0%nat st
    = handle_input (String newline (encode (mkMessage "result" "done" 7))) st1.
Proof.
  intros input st m st1.
  refine (task_without_connection 0%nat st m
            (String newline (encode (mkMessage "result" "done" 7))) _ _ _);
    vm_compute; reflexivity.
Defined.

(** C10. After every run of the node from its creation (connects, sends,
    handled messages, receive loops, heartbeat ticks) the address map and
    the connection map have the same keys. *)
Theorem registry_maps_same_keys
    (i : Z) (master : bool) (addrs : gset string) (ops : list Op) (id : Z) :
  let n := node (run ops (init i master addrs)) in
  dom (Peers n) = dom (conn n)
  ∧ (is_Some (Peers n !! id) ↔ is_Some (conn n !! id)).
Proof.
  intros n.
  assert (dom (Peers n) = dom (conn n)) as H.
  { apply reachable_registry_dom. unfold reachable. eauto 10. }
  split; [done|]. rewrite <- !elem_of_dom, H. done.
Qed.

(** * Further properties *)

(** X1. A receive loop whose input is what a peer's sends wrote, one
    valid message after the other, handles every one of them, in order. *)
Theorem handler_handles_sent_stream (c : Conn) (st : State) (ms : list Message) :
  Forall valid_Message ms →
  inbound_of st c = encode_all ms →
  handleConnection c st = fold_left (fun st m => dispatch m st) ms st.
Proof.
  intros Hv Hin. destruct (decodes_encode_all ms Hv) as (rest & Hd & He).
  unfold handleConnection. rewrite Hin. by eapply handle_input_decodes.
Qed.

Lemma handler_handles_sent_stream_witness :
  let ms := [mkMessage "result" "done" 7; mkMessage "heartbeat" "" 7] in
  let st := snd (Accept (encode_all ms) (init 1 false ∅)) in
  handleConnection 0%nat st = fold_left (fun st m => dispatch m st) ms st.
Proof.
  intros ms st. refine (handler_handles_sent_stream 0%nat st ms _ _).
  - repeat constructor; vm_compute; congruence.
  - vm_compute. reflexivity.
Defined.

(** X2. A send on a broken connection is logged and dropped: nothing is
    written, and the peer stays in the registry with its connection. *)
Theorem send_on_broken_connection
    (targetID : Z) (msg : Message) (st : State) (c : Conn) (cs : ConnState) (e : string) :
  lookup_conn targetID (node st) = Some c →
  conns st !! c = Some cs →
  broken cs = Some e →
  let st' := sendMessage targetID msg st in
  trace st' = trace st ++ [ConnWrite c (encode msg) (Some e);
                           LogLine ("Failed to send message to node "
                                    +:+ Strconv.Itoa targetID +:+ ": " +:+ e)]
  ∧ conns st' = conns st
  ∧ node st' = node st.
Proof.
  intros Hl Hc Hb st'. unfold st', sendMessage, Write. rewrite Hl, Hc, Hb. simpl.
  rewrite <- app_assoc. done.
Qed.

Lemma send_on_broken_connection_witness :
  let cs := mkConnState "" "" (Some "broken pipe") in
  let st := mkState (register 2 "127.0.0.1:9002" 0%nat (NewNode 1 true))
                    {[0%nat := cs]} ∅ [] in
  let msg := mkMessage "heartbeat" "" 1 in
  let st' := sendMessage 2 msg st in
  trace st' = trace st ++ [ConnWrite 0%nat (encode msg) (Some "broken pipe");
                           LogLine ("Failed to send message to node "
                                    +:+ Strconv.Itoa 2 +:+ ": " +:+ "broken pipe")]
  ∧ conns st' = conns st
  ∧ node st' = node st.
Proof.
  intros cs st msg st'.
  refine (send_on_broken_connection 2 msg st 0%nat cs "broken pipe" _ _ _);
    vm_compute; reflexivity.
Defined.

(** X3. A send on a live registered connection writes the encoded
    message to it, once, and changes nothing else. *)
Theorem send_on_live_connection
    (targetID : Z) (msg : Message) (st : State) (c : Conn) (cs : ConnState) :
  lookup_conn targetID (node st) = Some c →
  conns st !! c = Some cs →
  broken cs = None →
  let st' := sendMessage targetID msg st in
  trace st' = trace st ++ [ConnWrite c (encode msg) None]
  ∧ conns st'
    = <[c := mkConnState (inbound cs) (outbound cs +:+ encode msg) None]> (conns st)
  ∧ node st' = node st.
Proof.
  intros Hl Hc Hb st'. unfold st', sendMessage, Write. rewrite Hl, Hc, Hb. done.
Qed.

Lemma send_on_live_connection_witness :
  let cs := mkConnState "" "" None in
  let st := mkState (register 2 "127.0.0.1:9002" 0%nat (NewNode 1 true))
                    {[0%nat := cs]} ∅ [] in
  let msg := mkMessage "task" "hello" 1 in
  let st' := sendMessage 2 msg st in
  trace st' = trace st ++ [ConnWrite 0%nat (encode msg) None]
  ∧ conns st'
    = <[0%nat := mkConnState (inbound cs) (outbound cs +:+ encode msg) None]> (conns st)
  ∧ node st' = node st.
Proof.
  intros cs st msg st'.
  refine (send_on_live_connection 2 msg st 0%nat cs _ _ _); vm_compute; reflexivity.
Defined.

(** X4. No operation removes a peer: an identifier with an address and a
    connection keeps both entries (with whatever values) through every
    step. *)
Theorem registry_never_shrinks (op : Op) (st : State) (id : Z) :
  (is_Some (Peers (node st) !! id) → is_Some (Peers (node (exec op st)) !! id))
  ∧ (is_Some (conn (node st) !! id) → is_Some (conn (node (exec op st)) !! id)).
Proof.
  destruct (node_exec op st) as [->|(id' & a & _ & -> & _)]; [done|].
  simpl. rewrite !lookup_insert_is_Some. split; intros H;
    destruct (decide (id' = id)); auto.
Qed.

(** X5. Connecting again under the same identifier replaces the
    registered connection and leaves the earlier one open: it is still
    among the connections, and no longer in the registry under that
    identifier. *)
Theorem reconnect_leaves_old_connection_open
    (id : Z) (a1 a2 : string) (st : State) :
  a1 ∈ listening st → a2 ∈ listening st →
  let st1 := snd (connectToPeer id a1 st) in
  let st2 := snd (connectToPeer id a2 st1) in
  ∃ c1 c2,
    lookup_conn id (node st1) = Some c1
    ∧ lookup_conn id (node st2) = Some c2
    ∧ c1 ≠ c2
    ∧ is_Some (conns st2 !! c1)
    ∧ Peers (node st2) !! id = Some a2.
Proof.
  intros H1 H2 st1 st2.
  set (c1 := fresh_conn (conns st)).
  set (cs1 := <[c1 := mkConnState "" "" None]> (conns st)).
  set (c2 := fresh_conn cs1).
  assert (st1 = mkState (register id a1 c1 (node st)) cs1 (listening st) (trace st))
    as Hst1.
  { unfold st1, connectToPeer, Dial. rewrite decide_True by done. done. }
  assert (node st2 = register id a2 c2 (node st1)
          ∧ conns st2 = <[c2 := mkConnState "" "" None]> cs1) as [Hn2 Hc2].
  { unfold st2, connectToPeer, Dial. rewrite Hst1. simpl.
    rewrite decide_True by done. done. }
  exists c1, c2. rewrite Hn2, Hc2, Hst1. unfold lookup_conn. simpl.
  rewrite !lookup_insert_eq.
  assert (c1 ≠ c2) as Hne.
  { intros Heq. apply (is_fresh (dom cs1)). fold (fresh_conn cs1). fold c2.
    rewrite <- Heq. unfold cs1. rewrite dom_insert_L. set_solver. }
  repeat split; try done.
  rewrite lookup_insert_ne by done. unfold cs1. rewrite lookup_insert_eq. done.
Qed.

Lemma reconnect_leaves_old_connection_open_witness :
  let st := init 1 false {["127.0.0.1:9002"]} in
  let st1 := snd (connectToPeer 2 "127.0.0.1:9002" st) in
  let st2 := snd (connectToPeer 2 "127.0.0.1:9002" st1) in
  ∃ c1 c2,
    lookup_conn 2 (node st1) = Some c1
    ∧ lookup_conn 2 (node st2) = Some c2
    ∧ c1 ≠ c2
    ∧ is_Some (conns st2 !! c1)
    ∧ Peers (node st2) !! 2 = Some "127.0.0.1:9002".
Proof.
  apply (reconnect_leaves_old_connection_open 2 "127.0.0.1:9002" "127.0.0.1:9002"
           (init 1 false {["127.0.0.1:9002"]}));
    simpl; set_solver.
Defined.

(** X6. A receive loop never writes on its own connection: a reply
    goes through the registry, and an accepted connection is never
    registered.  After a connection is accepted and its whole input
    handled, nothing has been written to it. *)
Theorem accepted_connection_never_written (st : State) (input : string) :
  reachable st →
  let c := fst (Accept input st) in
  unregistered c (node st)
  ∧ conns (exec (OpAccept input) st) !! c = Some (mkConnState input "" None).
Proof.
  intros Hr c.
  assert (unregistered c (node st)) as Hun.
  { intros id Hid. apply (reachable_registered_open st Hr) in Hid.
    unfold c in Hid. simpl in Hid. rewrite fresh_conn_closed in Hid.
    by destruct Hid. }
  split; [done|]. simpl. unfold handleConnection, handle_input.
  rewrite conns_handle_loop by done. simpl. apply lookup_insert_eq.
Qed.

Lemma accepted_connection_never_written_witness :
  let st := run [OpConnect 2 "127.0.0.1:9002"] (init 1 false {["127.0.0.1:9002"]}) in
  let input := encode (mkMessage "task" "hello" 2) in
  let c := fst (Accept input st) in
  unregistered c (node st)
  ∧ conns (exec (OpAccept input) st) !! c = Some (mkConnState input "" None).
Proof.
  apply accepted_connection_never_written. unfold reachable. eauto 10.
Defined.


(** * Further properties: the command line and the process *)

Import Strings Bufio Strconv StrconvFacts CommandLineFacts.

(** X7. A [send] line sends to the node named by its second word, as a
    task from this node, everything behind that word: the words are
    joined as they were split, so the content is that of the line, byte
    for byte, runs of spaces included. *)
Theorem send_command_sends_content Error order stdin line rest target content st :
  ReadString stdin = (line, rest) →
  TrimSpace line = "send " +:+ Itoa target +:+ String space content →
  is_int target →
  iteration Error order stdin st
  = (false, rest,
     sendMessage target (mkMessage "task" content (ID (node st)))
                 (emit (prompt (node st)) st)).
Proof.
  intros HR HT Hi. unfold iteration.
  rewrite HR, HT, command_send by done. done.
Qed.

Lemma send_command_sends_content_witness :
  let stdin := "  send 2 hello   world " +:+ String newline "list" in
  let st := init 1 false ∅ in
  iteration (fun _ => "refused") [] stdin st
  = (false, "list",
     sendMessage 2 (mkMessage "task" "hello   world" 1) (emit (prompt (node st)) st)).
Proof.
  intros stdin st.
  refine (send_command_sends_content _ [] stdin
            ("  send 2 hello   world " +:+ String newline "") "list" 2
            "hello   world" st _ _ _).
  - vm_compute; reflexivity.
  - vm_compute; reflexivity.
  - unfold is_int; lia.
Defined.

(** X8. A [connect] line with a decimal identifier dials the address.
    If the dial succeeds, the peer and its new connection are registered
    under that identifier and "Connected to Node <id>" is printed; if it
    fails, "Failed to connect: <error>" is printed and nothing else
    changes. *)
Theorem connect_command_registers Error order stdin line rest id address st :
  ReadString stdin = (line, rest) →
  TrimSpace line = "connect " +:+ Itoa id +:+ String space address →
  no_space address = true →
  is_int id →
  iteration Error order stdin st
  = (false, rest,
     if decide (address ∈ listening st) then
       let c := fresh_conn (conns st) in
       mkState (register id address c (node st))
               (<[c := mkConnState "" "" None]> (conns st))
               (listening st)
               (trace st ++ [prompt (node st);
                             Stdout ("Connected to Node " +:+ Itoa id +:+ String newline "")])
     else
       mkState (node st) (conns st) (listening st)
               (trace st ++ [prompt (node st);
                             Stdout ("Failed to connect: " +:+ Error (DialError address)
                                     +:+ String newline "")])).
Proof.
  intros HR HT Ha Hi. unfold iteration. rewrite HR, HT. unfold command.
  change ("connect " +:+ Itoa id +:+ String space address)
    with ("connect" +:+ String space (Itoa id +:+ String space address)).
  rewrite Split_word by done. rewrite Split_word by apply Itoa_no_space.
  rewrite Split_last by done.
  change (String.eqb "connect" "connect") with true. cbv iota beta zeta.
  rewrite Atoi_Itoa by done. simpl fst.
  unfold connectToPeer, Dial. simpl listening.
  destruct (decide (address ∈ listening st)); simpl.
  - unfold emit, set_node. simpl. rewrite <- app_assoc. done.
  - unfold emit. simpl. rewrite <- app_assoc. done.
Qed.

Lemma connect_command_registers_witness :
  let stdin := "connect 2 127.0.0.1:9002" +:+ String newline "" in
  let st := init 1 false {["127.0.0.1:9002"]} in
  iteration (fun _ => "refused") [] stdin st
  = (false, "",
     if decide ("127.0.0.1:9002" ∈ listening st) then
       let c := fresh_conn (conns st) in
       mkState (register 2 "127.0.0.1:9002" c (node st))
               (<[c := mkConnState "" "" None]> (conns st))
               (listening st)
               (trace st ++ [prompt (node st);
                             Stdout ("Connected to Node " +:+ Itoa 2 +:+ String newline "")])
     else
       mkState (node st) (conns st) (listening st)
               (trace st ++ [prompt (node st);
                             Stdout ("Failed to connect: " +:+ "refused"
                                     +:+ String newline "")])).
Proof.
  intros stdin st.
  refine (connect_command_registers (fun _ => "refused") [] stdin stdin "" 2
            "127.0.0.1:9002" st _ _ _ _).
  - vm_compute; reflexivity.
  - vm_compute; reflexivity.
  - vm_compute; reflexivity.
  - unfold is_int; lia.
Defined.

(** X9. The error of [Atoi] is dropped: a [connect] line whose
    identifier is not a number is carried out for node 0.  The peer is
    registered under 0, taking the place of any peer 0 there was, and
    "Connected to Node 0" is printed. *)
Theorem connect_command_bad_identifier Error order stdin line rest w address st :
  ReadString stdin = (line, rest) →
  TrimSpace line = "connect " +:+ w +:+ String space address →
  no_space w = true → no_space address = true →
  (String.length w < 19)%nat → is_decimal w = false →
  address ∈ listening st →
  let st' := (iteration Error order stdin st).2 in
  Peers (node st') !! 0 = Some address
  ∧ lookup_conn 0 (node st') = Some (fresh_conn (conns st))
  ∧ new_events st st'
    = [prompt (node st); Stdout ("Connected to Node 0" +:+ String newline "")].
Proof.
  intros HR HT Hw Ha HL Hd Hin st'. unfold st', iteration. rewrite HR, HT. unfold command.
  change ("connect " +:+ w +:+ String space address)
    with ("connect" +:+ String space (w +:+ String space address)).
  rewrite Split_word by done. rewrite Split_word by done.
  rewrite Split_last by done.
  change (String.eqb "connect" "connect") with true. cbv iota beta zeta.
  rewrite Atoi_syntax by done. simpl fst.
  unfold connectToPeer, Dial. simpl listening.
  destruct (decide (address ∈ listening st)); [|done]. simpl.
  split; [apply lookup_insert_eq|]. split; [apply lookup_insert_eq|].
  apply new_events_app. simpl. rewrite <- app_assoc. done.
Qed.

Lemma connect_command_bad_identifier_witness :
  let stdin := "connect two 127.0.0.1:9002" +:+ String newline "" in
  let st := init 1 false {["127.0.0.1:9002"]} in
  let st' := (iteration (fun _ => "refused") [] stdin st).2 in
  Peers (node st') !! 0 = Some "127.0.0.1:9002"
  ∧ lookup_conn 0 (node st') = Some (fresh_conn (conns st))
  ∧ new_events st st'
    = [prompt (node st); Stdout ("Connected to Node 0" +:+ String newline "")].
Proof.
  intros stdin st.
  refine (connect_command_bad_identifier (fun _ => "refused") [] stdin stdin "" "two"
            "127.0.0.1:9002" st _ _ _ _ _ _ _).
  - vm_compute; reflexivity.
  - vm_compute; reflexivity.
  - vm_compute; reflexivity.
  - vm_compute; reflexivity.
  - simpl; lia.
  - vm_compute; reflexivity.
  - vm_compute. set_solver.
Defined.

(** X10. What a command line can do, whatever it holds.  It never
    changes the addresses that can be dialled; it changes the registry
    only if it is a [connect] with exactly two arguments whose address
    can be dialled, and then by that one registration; it writes to a
    connection only if it is a [send] with at least two arguments to a
    registered peer, and then the encoding of that one task, from this
    node, to the connection registered for the peer. *)
Theorem command_line_effects Error order stdin st :
  let st' := (iteration Error order stdin st).2 in
  let parts := Split (TrimSpace (ReadString stdin).1) in
  listening st' = listening st
  ∧ (node st' ≠ node st →
       ∃ w address, parts = ["connect"; w; address] ∧ address ∈ listening st
         ∧ node st' = register (Atoi w).1 address (fresh_conn (conns st)) (node st))
  ∧ (writes (new_events st st') ≠ [] →
       ∃ w word words c,
         parts = "send" :: w :: word :: words
         ∧ lookup_conn (Atoi w).1 (node st) = Some c
         ∧ writes (new_events st st')
           = [(c, encode (mkMessage "task" (Join (word :: words)) (ID (node st))))]).
Proof.
  intros st' parts. unfold st', parts, iteration.
  destruct (ReadString stdin) as [line rest]. simpl fst.
  pose proof (command_cases Error order (TrimSpace line) (emit (prompt (node st)) st)) as H.
  destruct (command Error order (TrimSpace line) (emit (prompt (node st)) st)) as [r st2].
  cbv zeta in H. cbn [snd] in H |- *.
  destruct H as [(H1 & H2 & H3 & evs & H4 & H5)
                |[(w & a & HS & Hin & H1 & H2 & evs & H4 & H5)
                 |(w & w1 & ws & HS & ->)]].
  - split; [done|]. split; [done|].
    erewrite new_events_app; [|rewrite H4; simpl; by rewrite <- app_assoc].
    simpl. by rewrite H5.
  - split; [done|]. split; [intros _; exists w, a; done|].
    erewrite new_events_app; [|rewrite H4; simpl; by rewrite <- app_assoc].
    simpl. by rewrite H5.
  - rewrite listening_sendMessage, node_sendMessage. split; [done|]. split; [done|].
    destruct (sendMessage_trace (Atoi w).1
                (mkMessage "task" (Join (w1 :: ws)) (ID (node (emit (prompt (node st)) st))))
                (emit (prompt (node st)) st)) as (evs & T & W).
    erewrite new_events_app; [|rewrite T; simpl; by rewrite <- app_assoc].
    simpl writes. destruct W as [W|(c & Hc & W)]; rewrite W; [done|].
    intros _. exists w, w1, ws, c. done.
Qed.

(** X11. A line whose first word is [list] prints, after the prompt,
    "Connected peers:" and then one line "Node <id>: <address>" for each
    registered peer, every peer once, in the order of the map iteration;
    it changes neither the registry nor the connections. *)
Theorem list_command_prints_registry Error order stdin st :
  first_word (ReadString stdin).1 = "list" →
  range_order (Peers (node st)) order →
  let st' := (iteration Error order stdin st).2 in
  ∃ peers,
    peers ≡ₚ map_to_list (Peers (node st))
    ∧ new_events st st'
      = prompt (node st) :: Stdout ("Connected peers:" +:+ String newline "")
        :: (peer_line <$> peers)
    ∧ node st' = node st ∧ conns st' = conns st.
Proof.
  intros Hw Ho st'. unfold st', iteration. unfold first_word in Hw.
  destruct (ReadString stdin) as [line rest]. simpl fst in Hw. unfold command.
  destruct (Split_cons (TrimSpace line)) as (p0 & args & HS). rewrite HS in *.
  simpl in Hw. subst p0.
  change (String.eqb "list" "connect") with false.
  change (String.eqb "list" "send") with false.
  change (String.eqb "list" "list") with true. cbv iota. cbn [snd].
  destruct (print_peers_spec order (Println "Connected peers:" (emit (prompt (node st)) st)))
    as (H1 & H2 & H3 & H4).
  exists (listed (node st) order). split; [by apply listed_range_order|].
  rewrite H1, H2. split; [|done].
  apply new_events_app. rewrite H4. simpl. rewrite <- !app_assoc. done.
Qed.

Lemma list_command_prints_registry_witness :
  let st := mkState (register 3 "c:3" 1%nat (register 2 "b:2" 0%nat (NewNode 1 false)))
                    ∅ ∅ [] in
  let stdin := " list" +:+ String newline "" in
  let st' := (iteration (fun _ => "refused") [3; 2] stdin st).2 in
  ∃ peers,
    peers ≡ₚ map_to_list (Peers (node st))
    ∧ new_events st st'
      = prompt (node st) :: Stdout ("Connected peers:" +:+ String newline "")
        :: (peer_line <$> peers)
    ∧ node st' = node st ∧ conns st' = conns st.
Proof.
  intros st stdin.
  refine (list_command_prints_registry (fun _ => "refused") [3; 2] stdin st _ _).
  - vm_compute; reflexivity.
  - split.
    + repeat constructor; rewrite ?elem_of_cons, ?elem_of_nil; intuition lia.
    + intros id. simpl. rewrite !elem_of_cons, elem_of_nil.
      destruct (decide (id = 3)) as [->|]; [rewrite lookup_insert_eq; split; eauto|].
      rewrite lookup_insert_ne by done.
      destruct (decide (id = 2)) as [->|]; [rewrite lookup_insert_eq; split; eauto|].
      rewrite lookup_insert_ne by done. rewrite lookup_empty.
      split; [intuition lia | intros [? ?]; done].
Defined.

(** X12. The white space around a command is dropped: a line with
    blanks, tabs or a carriage return before and behind a command does
    what the command alone does, and a line of white space only is the
    empty command. *)
Theorem surrounding_space_ignored Error order a cmd b rest st :
  all_space a = true → all_space b = true → trimmed cmd = true →
  no_newline (a +:+ cmd +:+ b) = true →
  iteration Error order (a +:+ cmd +:+ b +:+ String newline rest) st
  = let '(returned, st') := command Error order cmd (emit (prompt (node st)) st) in
    (returned, rest, st').
Proof.
  intros Ha Hb Hc Hn. unfold iteration.
  replace (a +:+ cmd +:+ b +:+ String newline rest)
    with ((a +:+ cmd +:+ b) +:+ String newline rest)
    by (by rewrite !append_assoc).
  rewrite ReadString_line by done.
  replace ((a +:+ cmd +:+ b) +:+ String newline "")
    with (a +:+ cmd +:+ (b +:+ String newline ""))
    by (by rewrite !append_assoc).
  rewrite TrimSpace_trimmed; try done.
  rewrite all_space_app, Hb. done.
Qed.

Lemma surrounding_space_ignored_witness :
  let a := String (chr 9) " " in
  let b := String (chr 13) "" in
  let st := init 1 false ∅ in
  iteration (fun _ => "refused") [] (a +:+ "help" +:+ b +:+ String newline "exit") st
  = let '(returned, st') :=
      command (fun _ => "refused") [] "help" (emit (prompt (node st)) st) in
    (returned, "exit", st').
Proof.
  intros a b st.
  refine (surrounding_space_ignored (fun _ => "refused") [] a "help" b "exit" st _ _ _ _);
    vm_compute; reflexivity.
Defined.

(** X13. [startCLI] returns at the first line whose first word is
    [exit], and leaves the input behind that line unread. *)
Theorem startCLI_returns_at_first_exit Error orders stdin st before l after :
  lines stdin = before ++ l :: after →
  Forall (fun x => first_word x ≠ "exit") before →
  first_word l = "exit" →
  (length before < length orders)%nat →
  ∃ rest st',
    startCLI Error orders stdin st = (true, rest, st') ∧ lines rest = after.
Proof.
  revert orders stdin st. induction before as [|b before IH]; intros orders stdin st HL HF Hl Hn.
  - destruct orders as [|order orders]; [simpl in Hn; lia|].
    simpl in HL. apply lines_ReadString in HL as (rest & HR & HL).
    rewrite startCLI_cons.
    pose proof (iteration_returned Error order stdin st) as [_ R].
    pose proof (iteration_rest Error order stdin st) as R2.
    rewrite HR in R, R2. specialize (R Hl).
    destruct (iteration Error order stdin st) as [[r rest'] st']. simpl in *. subst.
    eauto.
  - destruct orders as [|order orders]; [simpl in Hn; lia|].
    simpl in HL. apply lines_ReadString in HL as (rest & HR & HL).
    inversion HF as [|? ? Hb HF']; subst.
    rewrite startCLI_cons.
    pose proof (iteration_returned Error order stdin st) as [R _].
    pose proof (iteration_rest Error order stdin st) as R2.
    rewrite HR in R, R2.
    destruct (iteration Error order stdin st) as [[r rest'] st']. simpl in *. subst rest'.
    destruct r; [by specialize (R eq_refl)|].
    apply IH; [done..|lia].
Qed.

Lemma startCLI_returns_at_first_exit_witness :
  let stdin := "help" +:+ String newline (" exit now" +:+ String newline "list") in
  ∃ rest st',
    startCLI (fun _ => "refused") [[]; []; []] stdin (init 1 false ∅) = (true, rest, st')
    ∧ lines rest = ["list"].
Proof.
  intros stdin.
  refine (startCLI_returns_at_first_exit (fun _ => "refused") [[]; []; []] stdin
            (init 1 false ∅) ["help" +:+ String newline ""]
            (" exit now" +:+ String newline "") ["list"] _ _ _ _).
  - vm_compute; reflexivity.
  - repeat constructor. vm_compute. discriminate.
  - vm_compute; reflexivity.
  - simpl; lia.
Defined.

(** X14. Nothing else ends the loop: on an input without a line whose
    first word is [exit], [startCLI] has not returned after any number
    of passes, the end of the input included. *)
Theorem startCLI_never_returns_without_exit Error orders stdin st :
  Forall (fun x => first_word x ≠ "exit") (lines stdin) →
  (startCLI Error orders stdin st).1.1 = false.
Proof.
  intros HF. by apply startCLI_without_exit.
Qed.

Lemma startCLI_never_returns_without_exit_witness :
  (startCLI (fun _ => "refused") [[]; []; []; []]
     ("help" +:+ String newline "exits") (init 1 false ∅)).1.1 = false.
Proof.
  refine (startCLI_never_returns_without_exit _ _ _ _ _).
  repeat constructor; vm_compute; discriminate.
Defined.

(** X15. The end of the input does not stop the loop: once the lines
    are used up ([ReadString] then yields the empty string, its error
    being dropped), every further pass prints the prompt and "Unknown
    command. Type 'help' for available commands", reads nothing and
    changes nothing else. *)
Theorem startCLI_spins_at_end_of_input Error orders more stdin st :
  Forall (fun x => first_word x ≠ "exit") (lines stdin) →
  length orders = length (lines stdin) →
  let st1 := (startCLI Error orders stdin st).2 in
  startCLI Error (orders ++ more) stdin st
  = (false, "",
     mkState (node st1) (conns st1) (listening st1)
       (trace st1 ++ mjoin (replicate (length more) [prompt (node st1); unknown_command]))).
Proof.
  intros HF HL st1. unfold st1. rewrite startCLI_app.
  destruct (startCLI_without_exit Error orders stdin st HF) as [R R2].
  destruct (startCLI Error orders stdin st) as [[r rest] st']. simpl in *. subst r.
  rewrite HL, drop_all in R2. apply lines_nil in R2. subst rest.
  apply startCLI_eof.
Qed.

Lemma startCLI_spins_at_end_of_input_witness :
  let stdin := "help" +:+ String newline "list" in
  let st := init 1 false ∅ in
  let st1 := (startCLI (fun _ => "refused") [[]; []] stdin st).2 in
  startCLI (fun _ => "refused") ([[]; []] ++ [[]; []; []]) stdin st
  = (false, "",
     mkState (node st1) (conns st1) (listening st1)
       (trace st1 ++ mjoin (replicate (length [[]; []; [] : list Z])
                                      [prompt (node st1); unknown_command]))).
Proof.
  intros stdin st.
  refine (startCLI_spins_at_end_of_input (fun _ => "refused") [[]; []] [[]; []; []] stdin st _ _).
  - repeat constructor; vm_compute; discriminate.
  - vm_compute; reflexivity.
Defined.

(** X16. Whatever the arguments, the input and the schedule, a process
    started by [main] sends messages of its own only: every write to a
    connection carries the encoding of one message whose [from] is the
    identifier of the node, a value of type [int], and which is a task,
    the reply "Processed: ..." to a task, or a heartbeat; and a
    heartbeat is sent only when the third argument parses as true. *)
Theorem process_sends_own_messages Error Listen addrs Args steps stdin :
  is_int (Atoi (nth 1 Args "")).1
  ∧ sends_own (Atoi (nth 1 Args "")).1 (ParseBool (nth 3 Args "")).1
              (events (main Error Listen addrs Args steps stdin)).
Proof.
  split; [apply Atoi_int|]. unfold main.
  destruct Args as [|a0 [|a1 [|a2 [|a3 [|a4 Args]]]]]; try (by constructor).
  unfold Start. destruct (Listen _) as [err|]; [by constructor|].
  simpl nth.
  match goal with |- context [serve Error steps stdin ?s] =>
    destruct (serve_sends_own Error steps stdin s) as (evs & -> & S) end.
  unfold sends_own in *. rewrite writes_app. simpl in *. done.
Qed.

(** X17. The exit status.  The program ends with status 1 when it is
    not given three arguments (it prints the usage line) or when the
    port cannot be listened on (it logs "Failed to start node"), in both
    cases before any prompt; it ends with status 0 only when it got
    three arguments, the listener started, and a line of the input has
    [exit] as its first word. *)
Theorem main_exit_status Error Listen addrs Args steps stdin code out :
  main Error Listen addrs Args steps stdin = Exit code out →
  (code = 1 ∧ length Args ≠ 4%nat
   ∧ out = [Stdout ("Usage: go run main.go <node_id> <port> <is_master>"
                    +:+ String newline "")])
  ∨ (code = 1 ∧ length Args = 4%nat
     ∧ ∃ err, Listen (":" +:+ Itoa (Atoi (nth 2 Args "")).1) = Some err
              ∧ out = [LogLine ("Failed to start node "
                                +:+ Itoa (Atoi (nth 1 Args "")).1 +:+ ": " +:+ err)])
  ∨ (code = 0 ∧ length Args = 4%nat
     ∧ Listen (":" +:+ Itoa (Atoi (nth 2 Args "")).1) = None
     ∧ Exists (fun l => first_word l = "exit") (lines stdin)).
Proof.
  unfold main. intros H.
  destruct Args as [|a0 [|a1 [|a2 [|a3 [|a4 Args]]]]];
    try (injection H as <- <-; left; done).
  right. unfold Start in H. simpl nth.
  destruct (Listen (":" +:+ Itoa (Atoi a2).1)) as [err|] eqn:EL.
  - injection H as <- <-. left. repeat split. by exists err.
  - right. apply serve_exit in H as [-> H]. done.
Qed.

Lemma main_exit_status_witness :
  let Error := fun _ : error => "refused" in
  let Listen := fun _ : string => @None string in
  let Args := ["main"; "1"; "9001"; "false"] in
  let stdin := "exit" +:+ String newline "" in
  let out := [Stdout ("Node 1 started on port 9001 (Master: false)" +:+ String newline "");
              Stdout "Node 1 > "] in
  (0 = 1 ∧ length Args ≠ 4%nat
   ∧ out = [Stdout ("Usage: go run main.go <node_id> <port> <is_master>"
                    +:+ String newline "")])
  ∨ (0 = 1 ∧ length Args = 4%nat
     ∧ ∃ err, Listen (":" +:+ Itoa (Atoi (nth 2 Args "")).1) = Some err
              ∧ out = [LogLine ("Failed to start node "
                                +:+ Itoa (Atoi (nth 1 Args "")).1 +:+ ": " +:+ err)])
  ∨ (0 = 0 ∧ length Args = 4%nat
     ∧ Listen (":" +:+ Itoa (Atoi (nth 2 Args "")).1) = None
     ∧ Exists (fun l => first_word l = "exit") (lines stdin)).
Proof.
  intros Error Listen Args stdin out.
  refine (main_exit_status Error Listen ∅ Args [Command []] stdin 0 out _).
  vm_compute; reflexivity.
Defined.

(** X18. From node to node and back.  Node A and node B have each
    other registered on live connections.  A [send] line at A with a
    valid UTF-8 content writes bytes that, received by B, make B print
    "Task received from Node <A>: <content>", sleep a second and write a
    reply that, received by A, makes A print "Result received from Node
    <B>: Processed: <content>". *)
Theorem task_round_trip Error order stdin line rest content
    (stA stB : State) cA cB csA csB :
  let a := ID (node stA) in
  let b := ID (node stB) in
  ReadString stdin = (line, rest) →
  TrimSpace line = "send " +:+ Itoa b +:+ String space content →
  ValidString content = true → is_int a → is_int b →
  lookup_conn b (node stA) = Some cA → conns stA !! cA = Some csA → broken csA = None →
  lookup_conn a (node stB) = Some cB → conns stB !! cB = Some csB → broken csB = None →
  let stA1 := (iteration Error order stdin stA).2 in
  ∃ sent reply,
    new_events stA stA1 = [prompt (node stA); ConnWrite cA sent None]
    ∧ new_events stB (exec (OpAccept sent) stB)
      = [Stdout ("Task received from Node " +:+ Itoa a +:+ ": " +:+ content
                 +:+ String newline "");
         Sleep Second;
         ConnWrite cB reply None]
    ∧ new_events stA1 (exec (OpAccept reply) stA1)
      = [Stdout ("Result received from Node " +:+ Itoa b +:+ ": Processed: " +:+ content
                 +:+ String newline "")].
Proof.
  intros a b HR HT Hv Ha Hb HA1 HA2 HA3 HB1 HB2 HB3 stA1.
  set (task := mkMessage "task" content a).
  set (reply := mkMessage "result" ("Processed: " +:+ content) b).
  exists (encode task), (encode reply).
  assert (Vt : valid_Message task) by (split; [done|split; [done|exact Ha]]).
  assert (Vr : valid_Message reply).
  { split; [done|split; [by apply ValidString_Processed|exact Hb]]. }
  unfold stA1, iteration. rewrite HR, HT, command_send by done. cbn [snd].
  split; [|split].
  - apply new_events_app.
    rewrite (sendMessage_live _ _ _ cA csA); try done.
    simpl. rewrite <- app_assoc. done.
  - rewrite (accept_one _ _ Vt). apply new_events_app.
    unfold dispatch. cbv zeta.
    change (String.eqb (Type_ task) "heartbeat") with false.
    change (String.eqb (Type_ task) "task") with true. cbv iota.
    erewrite sendMessage_live; [| exact HB1 | | exact HB3].
    + simpl. rewrite <- !app_assoc. done.
    + simpl. rewrite lookup_insert_ne; [done|].
      intros E. pose proof (fresh_conn_closed (conns stB)) as F. rewrite E in F. congruence.
  - rewrite (accept_one _ _ Vr). apply new_events_app.
    unfold dispatch. cbv zeta.
    change (String.eqb (Type_ reply) "heartbeat") with false.
    change (String.eqb (Type_ reply) "task") with false.
    change (String.eqb (Type_ reply) "result") with true. cbv iota.
    done.
Qed.

Lemma task_round_trip_witness :
  let stA := (connectToPeer 2 "b:9002" (init 1 false {["b:9002"]})).2 in
  let stB := (connectToPeer 1 "a:9001" (init 2 false {["a:9001"]})).2 in
  let stdin := "send 2 sum 1 2" +:+ String newline "" in
  let stA1 := (iteration (fun _ => "refused") [] stdin stA).2 in
  ∃ sent reply,
    new_events stA stA1 = [prompt (node stA); ConnWrite 0%nat sent None]
    ∧ new_events stB (exec (OpAccept sent) stB)
      = [Stdout ("Task received from Node " +:+ Itoa 1 +:+ ": " +:+ "sum 1 2"
                 +:+ String newline "");
         Sleep Second;
         ConnWrite 0%nat reply None]
    ∧ new_events stA1 (exec (OpAccept reply) stA1)
      = [Stdout ("Result received from Node " +:+ Itoa 2 +:+ ": Processed: " +:+ "sum 1 2"
                 +:+ String newline "")].
Proof.
  intros stA stB stdin.
  refine (task_round_trip (fun _ => "refused") [] stdin stdin "" "sum 1 2" stA stB
            0%nat 0%nat (mkConnState "" "" None) (mkConnState "" "" None)
            _ _ _ _ _ _ _ _ _ _ _).
  - vm_compute; reflexivity.
  - vm_compute; reflexivity.
  - vm_compute; reflexivity.
  - vm_compute; split; [discriminate|reflexivity].
  - vm_compute; split; [discriminate|reflexivity].
  - vm_compute; reflexivity.
  - vm_compute; reflexivity.
  - vm_compute; reflexivity.
  - vm_compute; reflexivity.
  - vm_compute; reflexivity.
  - vm_compute; reflexivity.
Defined.

(** X19. What a tick of the heartbeat task writes to any connection,
    when received by a node that is not master, prints "Heartbeat
    received from master (Node <id>)" with the identifier of the sender;
    received by a master, it prints nothing. *)
Theorem heartbeat_round_trip order (stA stB : State) c bytes :
  is_int (ID (node stA)) →
  (c, bytes) ∈ writes (new_events stA (exec (OpTick order) stA)) →
  new_events stB (exec (OpAccept bytes) stB)
  = if IsMaster (node stB) then []
    else [Stdout ("Heartbeat received from master (Node " +:+ Itoa (ID (node stA))
                  +:+ ")" +:+ String newline "")].
Proof.
  intros Hi Hin. simpl exec in Hin.
  destruct (IsMaster (node stA)).
  2:{ unfold new_events in Hin. rewrite drop_all in Hin. by apply elem_of_nil in Hin. }
  destruct (tick_writes_heartbeat order stA) as (evs & T & W).
  rewrite (new_events_app _ _ _ T) in Hin.
  rewrite Forall_forall in W. specialize (W _ Hin). simpl in W. subst bytes.
  rewrite accept_one by (split; [done|split; [done|exact Hi]]).
  apply new_events_app. unfold dispatch. cbv zeta.
  change (String.eqb (Type_ (mkMessage "heartbeat" "" (ID (node stA)))) "heartbeat") with true.
  cbv iota. simpl node. destruct (IsMaster (node stB)); simpl; [by rewrite app_nil_r|done].
Qed.

Lemma heartbeat_round_trip_witness :
  let stA := (connectToPeer 2 "b:9002" (init 1 true {["b:9002"]})).2 in
  let stB := init 2 false ∅ in
  let bytes := encode (mkMessage "heartbeat" "" 1) in
  new_events stB (exec (OpAccept bytes) stB)
  = if IsMaster (node stB) then []
    else [Stdout ("Heartbeat received from master (Node " +:+ Itoa (ID (node stA))
                  +:+ ")" +:+ String newline "")].
Proof.
  intros stA stB bytes.
  refine (heartbeat_round_trip [2] stA stB 0%nat bytes _ _).
  - vm_compute; split; [discriminate|reflexivity].
  - vm_compute. left.
Defined.
